(** * podman.command.PodmanCommand: the service lifecycle

    A shallow embedding of [src/podman/command/command.py]:
    [start_service], [stop_service], [wait_for_service] and the
    [service] context manager, run against an explicit model of the
    collaborators the code calls (the monotonic clock, [subprocess.Popen],
    the REST client's [ping], the command runner).

    Time: [time.monotonic()] is a float of seconds in the source.  The model
    reads the clock in whole ticks (think milliseconds) and takes every
    timeout, interval and delay in the same unit. *)

From Stdlib Require Import ZArith NArith List String Bool Lia.
Import ListNotations.
Local Open Scope Z_scope.

(** ** Exceptions *)

Module Errors.

(** Modelled from the spec: the module [podman.errors] is not part of the
    sources at hand.  The classes are the ones [command.py] names
    ([PodmanError], [ServiceTimeout], [ServiceTerminated], [APIError]),
    the two standard exceptions its calls can raise
    ([subprocess.TimeoutExpired], [ValueError] of [time.sleep]), and one
    constructor for every other exception class. *)
Inductive exn : Type :=
| PodmanError (msg : string)
| ServiceTimeout (timeout : Z)
| ServiceTerminated (code : Z)
| APIError (detail : string)
| TimeoutExpired (timeout : Z)
| ValueError (msg : string)
| OtherException (name : string).

(** [except errors.APIError] *)
Definition isinstance_APIError (e : exn) : bool :=
  match e with APIError _ => true | _ => false end.

(** [except subprocess.TimeoutExpired] *)
Definition isinstance_TimeoutExpired (e : exn) : bool :=
  match e with TimeoutExpired _ => true | _ => false end.

(** [except (errors.ServiceTimeout, errors.ServiceTerminated)] *)
Definition isinstance_ServiceTimeout_or_Terminated (e : exn) : bool :=
  match e with
  | ServiceTimeout _ | ServiceTerminated _ => true
  | _ => false
  end.

End Errors.
Export Errors.

(** ** The world the code runs in *)

(** What one call of [c.ping()] does: return a boolean or raise. *)
Inductive PingReply : Type :=
| Pong (ok : bool)
| PingRaises (e : exn).

(** The child process as the operating system sees it.  [exit_plan] is the
    instant and the exit code at which the child ends as things stand (its
    own end, or the effect of a signal already delivered); [on_sigterm] is
    its reaction to SIGTERM: exit after that delay with that code, or ignore
    the signal. *)
Record Proc : Type := mkProc {
  exit_plan : option (Z * Z);
  on_sigterm : option (N * Z)
}.

(** Modelled from the spec: [cli_runner.Runner.construct] is not part of the
    sources at hand.  The spec has it produce the invocation
    "start service [uri] [--time=T] [--cors=C]", every unset field omitted;
    the record keeps the sub-command words and the three optional fields. *)
Record Command : Type := mkCommand {
  words : list string;
  arg_uri : option string;
  opt_time : option Z;
  opt_cors : option string
}.

Definition construct (w1 w2 : string) (uri : option string)
    (time : option Z) (cors : option string) : Command :=
  mkCommand [w1; w2] uri time cors.

(** Every call the code makes on a collaborator, with what it answered. *)
Inductive Event : Type :=
| EvSpawn (cmd : Command) (pid : nat)
| EvMonotonic (now : Z)
| EvSleep (secs : Z)
| EvClientOpen (uri : string)
| EvClientClose
| EvPing (reply : PingReply)
| EvPoll (pid : nat) (ret : option Z)
| EvTerminate (pid : nat)
| EvKill (pid : nat)
| EvWait (pid : nat) (timeout : option Z) (ret : option Z).

(** The part of the world the code cannot change: the platform name, how
    long the n-th collaborator call takes to get going, what the n-th ping
    answers, and how a child of the launcher behaves (its lifetime when left
    alone, its reaction to SIGTERM). *)
Record Host : Type := mkHost {
  platform_system : string;
  latency : nat -> N;
  ping_script : nat -> PingReply;
  child_lifetime : option (N * Z);
  child_on_sigterm : option (N * Z)
}.

Record World : Type := mkWorld {
  host : Host;
  clock : Z;
  procs : nat -> Proc;
  next_pid : nat;
  pings : nat;
  trace : list Event
}.

(** The exit code of [p] at instant [t], if it has exited by then. *)
Definition exit_status (t : Z) (p : Proc) : option Z :=
  match exit_plan p with
  | Some (te, c) => if te <=? t then Some c else None
  | None => None
  end.

(** SIGTERM at instant [t]: nothing for a child that is gone or ignores it;
    otherwise the child ends after its delay unless it ends sooner anyway. *)
Definition deliver_sigterm (t : Z) (p : Proc) : Proc :=
  match exit_status t p, on_sigterm p with
  | None, Some (d, c) =>
      match exit_plan p with
      | Some (te, _) =>
          if te <=? t + Z.of_N d then p
          else mkProc (Some (t + Z.of_N d, c)) (on_sigterm p)
      | None => mkProc (Some (t + Z.of_N d, c)) (on_sigterm p)
      end
  | _, _ => p
  end.

(** SIGKILL at instant [t]: a live child ends at once; [Popen] reports a
    child ended by signal 9 as [-9]. *)
Definition deliver_sigkill (t : Z) (p : Proc) : Proc :=
  match exit_status t p with
  | Some _ => p
  | None => mkProc (Some (t, -9)) (on_sigterm p)
  end.

Definition set_clock (t : Z) (w : World) : World :=
  mkWorld (host w) t (procs w) (next_pid w) (pings w) (trace w).

Definition set_proc (pid : nat) (p : Proc) (w : World) : World :=
  mkWorld (host w) (clock w)
    (fun q => if Nat.eqb q pid then p else procs w q)
    (next_pid w) (pings w) (trace w).

Definition log (ev : Event) (w : World) : World :=
  mkWorld (host w) (clock w) (procs w) (next_pid w) (pings w) (trace w ++ [ev]).

(** The instant at which the next collaborator call takes effect. *)
Definition reading (w : World) : Z :=
  clock w + Z.of_N (latency (host w) (List.length (trace w))).

Definition elapse (w : World) : World := set_clock (reading w) w.

(** ** Outcomes and the monad of the code *)

Inductive Outcome (A : Type) : Type :=
| Ok (a : A)
| Raise (e : exn)
| Hang          (* a blocking call that never returns *)
| OutOfFuel.    (* the loop bound of the model was reached *)
Arguments Ok {A} a.
Arguments Raise {A} e.
Arguments Hang {A}.
Arguments OutOfFuel {A}.

Definition M (A : Type) : Type := World -> Outcome A * World.

Definition ret {A} (a : A) : M A := fun w => (Ok a, w).

Definition raise {A} (e : exn) : M A := fun w => (Raise e, w).

Definition bind {A B} (m : M A) (k : A -> M B) : M B :=
  fun w =>
    match m w with
    | (Ok a, w1) => k a w1
    | (Raise e, w1) => (Raise e, w1)
    | (Hang, w1) => (Hang, w1)
    | (OutOfFuel, w1) => (OutOfFuel, w1)
    end.

(** [try: m  except <classes>: handler], the handler deciding by class and
    re-raising what it does not catch. *)
Definition try_except {A} (m : M A) (handler : exn -> M A) : M A :=
  fun w =>
    match m w with
    | (Raise e, w1) => handler e w1
    | r => r
    end.

(** The exit of a [with] block whose manager only releases: [release] runs
    when the body returns and when it raises. *)
Definition finally {A} (m : M A) (release : M unit) : M A :=
  fun w =>
    match m w with
    | (Ok a, w1) => bind release (fun _ => ret a) w1
    | (Raise e, w1) => bind release (fun _ => raise e) w1
    | r => r
    end.

Declare Scope py_scope.
Delimit Scope py_scope with py.
Notation "x <- m ;; k" := (bind m (fun x => k))
  (at level 61, m at next level, right associativity) : py_scope.
Notation "m ;; k" := (bind m (fun _ => k))
  (at level 61, right associativity) : py_scope.
Local Open Scope py_scope.

(** ** Collaborators *)

(** [platform.system()] *)
Definition platform_system_call : M string :=
  fun w => (Ok (platform_system (host w)), w).

(** [time.monotonic()] *)
Definition time_monotonic : M Z :=
  fun w => let w1 := elapse w in (Ok (clock w1), log (EvMonotonic (clock w1)) w1).

(** [time.sleep(secs)]: a negative length is a [ValueError]. *)
Definition time_sleep (secs : Z) : M unit :=
  fun w =>
    let w1 := elapse w in
    if secs <? 0
    then (Raise (ValueError "sleep length must be non-negative"), log (EvSleep secs) w1)
    else (Ok tt, log (EvSleep secs) (set_clock (clock w1 + secs) w1)).

(** Modelled from the spec: the module [podman.client] is not part of the
    sources at hand.  The spec's liveness prober makes one best-effort
    health check per [ping], which answers, fails as unreachable or fails
    otherwise; what the n-th ping does is the host's [ping_script].

    [client.PodmanClient(base_url=uri).__enter__()] *)
Definition client_open (uri : string) : M unit :=
  fun w => (Ok tt, log (EvClientOpen uri) (elapse w)).

(** [PodmanClient.__exit__]: closes the client *)
Definition client_close : M unit :=
  fun w => (Ok tt, log EvClientClose (elapse w)).

(** [c.ping()] *)
Definition client_ping : M bool :=
  fun w =>
    let w1 := elapse w in
    let reply := ping_script (host w) (pings w) in
    let w2 := log (EvPing reply)
                (mkWorld (host w1) (clock w1) (procs w1) (next_pid w1)
                         (S (pings w1)) (trace w1)) in
    match reply with
    | Pong ok => (Ok ok, w2)
    | PingRaises e => (Raise e, w2)
    end.

(** Modelled from the spec: [cli_runner.Runner.run_raw] is not part of the
    sources at hand.  With [wait=False] it is the spec's launcher: it spawns
    a detached child and returns its handle without blocking. *)
Definition run_raw (cmd : Command) : M nat :=
  fun w =>
    let w1 := elapse w in
    let pid := next_pid w1 in
    let born :=
      mkProc
        (match child_lifetime (host w1) with
         | Some (d, c) => Some (clock w1 + Z.of_N d, c)
         | None => None
         end)
        (child_on_sigterm (host w1)) in
    (Ok pid,
     log (EvSpawn cmd pid)
       (mkWorld (host w1) (clock w1)
          (fun q => if Nat.eqb q pid then born else procs w1 q)
          (S pid) (pings w1) (trace w1))).

(** [proc.poll()] *)
Definition popen_poll (pid : nat) : M (option Z) :=
  fun w =>
    let w1 := elapse w in
    let r := exit_status (clock w1) (procs w1 pid) in
    (Ok r, log (EvPoll pid r) w1).

(** [proc.terminate()] *)
Definition popen_terminate (pid : nat) : M unit :=
  fun w =>
    let w1 := elapse w in
    (Ok tt,
     log (EvTerminate pid)
       (set_proc pid (deliver_sigterm (clock w1) (procs w1 pid)) w1)).

(** [proc.kill()] *)
Definition popen_kill (pid : nat) : M unit :=
  fun w =>
    let w1 := elapse w in
    (Ok tt,
     log (EvKill pid)
       (set_proc pid (deliver_sigkill (clock w1) (procs w1 pid)) w1)).

(** [proc.wait(timeout=timeout)]: returns the exit code once the child has
    ended; with a timeout, raises [TimeoutExpired] when the child has not
    ended that long after the call; without one, blocks until it ends. *)
Definition popen_wait (pid : nat) (timeout : option Z) : M Z :=
  fun w =>
    let w1 := elapse w in
    let t := clock w1 in
    match exit_plan (procs w1 pid), timeout with
    | Some (te, c), None =>
        (Ok c, log (EvWait pid None (Some c)) (set_clock (Z.max t te) w1))
    | None, None => (Hang, w1)
    | Some (te, c), Some limit =>
        if te <=? t + Z.max 0 limit
        then (Ok c, log (EvWait pid timeout (Some c)) (set_clock (Z.max t te) w1))
        else (Raise (TimeoutExpired limit),
              log (EvWait pid timeout None) (set_clock (t + Z.max 0 limit) w1))
    | None, Some limit =>
        (Raise (TimeoutExpired limit),
         log (EvWait pid timeout None) (set_clock (t + Z.max 0 limit) w1))
    end.

(** ** The code of [PodmanCommand] *)

Module PodmanCommand.

(** [start_service], lines 103-109. *)
Definition start_service (uri : option string) (time : option Z)
    (cors : option string) : M nat :=
  system <- platform_system_call ;;
  if negb (String.eqb system "Linux")
  then raise (PodmanError
    "The `podman system service` command is available only on Linux systems")
  else
    let cmd := construct "system" "service" uri time cors in
    run_raw cmd.

(** [stop_service], lines 127-133. *)
Definition stop_service (proc : nat) (timeout : option Z) : M Z :=
  popen_terminate proc ;;
  try_except
    (popen_wait proc timeout)
    (fun e =>
       if isinstance_TimeoutExpired e
       then popen_kill proc ;; popen_wait proc None
       else raise e).

(** Python truth of an [Optional[int]]: [None] and [0] are false. *)
Definition truthy (timeout : option Z) : bool :=
  match timeout with
  | Some t => negb (t =? 0)
  | None => false
  end.

(** [ServiceTimeout(timeout)] is only built for a true [timeout]. *)
Definition timeout_value (timeout : option Z) : Z :=
  match timeout with Some t => t | None => 0 end.

(** [timeout and time.monotonic() - start > timeout], line 159: [and]
    reads the clock only when [timeout] is true. *)
Definition deadline_passed (start : Z) (timeout : option Z) : M bool :=
  if truthy timeout
  then now <- time_monotonic ;; ret (timeout_value timeout <? now - start)
  else ret false.

Inductive LoopStep : Type := Continue | Break.

(** One turn of the [while True] loop, lines 159-171. *)
Definition wait_iteration (start : Z) (proc : nat) (timeout : option Z)
    (check_interval : Z) : M LoopStep :=
  expired <- deadline_passed start timeout ;;
  if expired then raise (ServiceTimeout (timeout_value timeout))
  else
    r <- popen_poll proc ;;
    match r with
    | Some code => raise (ServiceTerminated code)
    | None =>
        up <- try_except client_ping
                (fun e => if isinstance_APIError e then ret false else raise e) ;;
        if up then ret Break
        else time_sleep check_interval ;; ret Continue
    end.

(** [while True], bounded by [fuel] turns. *)
Fixpoint wait_loop (fuel : nat) (start : Z) (proc : nat)
    (timeout : option Z) (check_interval : Z) : M unit :=
  match fuel with
  | O => fun w => (OutOfFuel, w)
  | S fuel' =>
      step <- wait_iteration start proc timeout check_interval ;;
      match step with
      | Break => ret tt
      | Continue => wait_loop fuel' start proc timeout check_interval
      end
  end.

(** [wait_for_service], lines 156-171. *)
Definition wait_for_service (fuel : nat) (uri : string) (proc : nat)
    (timeout : option Z) (check_interval : Z) : M unit :=
  start <- time_monotonic ;;
  client_open uri ;;
  finally (wait_loop fuel start proc timeout check_interval) client_close.

(** [check_interval: float = 0.1] *)
Definition default_check_interval : Z := 100.

(** [service] is a generator under [contextlib.contextmanager].  This is
    its code up to [yield proc], lines 198-205: what [__enter__] runs. *)
Definition service_enter (fuel : nat) (uri : string) (cors : option string)
    (ping_timeout stop_timeout : option Z) : M nat :=
  proc <- start_service (Some uri) (Some 0) cors ;;
  try_except
    (wait_for_service fuel uri proc ping_timeout default_check_interval)
    (fun e =>
       if isinstance_ServiceTimeout_or_Terminated e
       then stop_service proc stop_timeout ;; raise e
       else raise e) ;;
  ret proc.

(** The generator resumed at [yield proc], lines 205-206.  [__exit__]
    resumes it with [None] after a block that ended normally, and throws
    the block's exception into it otherwise; the [yield] stands in no
    [try], so a thrown exception leaves the generator at once. *)
Definition service_resume (proc : nat) (stop_timeout : option Z)
    (thrown : option exn) : M unit :=
  match thrown with
  | Some e => raise e
  | None => stop_service proc stop_timeout ;; ret tt
  end.

(** [with cmd.service(uri, cors, ping_timeout, stop_timeout) as proc: block] *)
Definition with_service {A} (fuel : nat) (uri : string)
    (cors : option string) (ping_timeout stop_timeout : option Z)
    (block : nat -> M A) : M A :=
  proc <- service_enter fuel uri cors ping_timeout stop_timeout ;;
  fun w =>
    match block proc w with
    | (Ok a, w1) => (service_resume proc stop_timeout None ;; ret a) w1
    | (Raise e, w1) => (service_resume proc stop_timeout (Some e) ;; raise e) w1
    | r => r
    end.

End PodmanCommand.
Import PodmanCommand.

(** ** Observations on a world *)

Definition is_terminate (pid : nat) (ev : Event) : bool :=
  match ev with EvTerminate q => Nat.eqb q pid | _ => false end.

Definition is_spawn (ev : Event) : bool :=
  match ev with EvSpawn _ _ => true | _ => false end.

(** How many times [proc.terminate()] was called on [pid]: every call of
    [stop_service] makes exactly one. *)
Definition terminations (pid : nat) (w : World) : nat :=
  List.length (filter (is_terminate pid) (trace w)).

(** How many children the launcher was asked for. *)
Definition spawns (w : World) : nat :=
  List.length (filter is_spawn (trace w)).

(** The child ends on its own or when asked to. *)
Definition mortal (p : Proc) : bool :=
  match exit_plan p, on_sigterm p with
  | None, None => false
  | _, _ => true
  end.

(** The three things a call of [Popen.wait] made in [w] can do. *)
Inductive WaitCase (pid : nat) (timeout : option Z) (w : World)
  : Outcome Z * World -> Prop :=
| WaitExited (c : Z) (w' : World) :
    trace w' = trace w ++ [EvWait pid timeout (Some c)] ->
    procs w' = procs w ->
    exit_status (clock w') (procs w' pid) = Some c ->
    WaitCase pid timeout w (Ok c, w')
| WaitExpired (limit : Z) (w' : World) :
    timeout = Some limit ->
    trace w' = trace w ++ [EvWait pid timeout None] ->
    procs w' = procs w ->
    WaitCase pid timeout w (Raise (TimeoutExpired limit), w')
| WaitForever (w' : World) :
    timeout = None ->
    trace w' = trace w ->
    procs w' = procs w ->
    exit_plan (procs w pid) = None ->
    WaitCase pid timeout w (Hang, w').

(** The three ways a call of [stop_service] made in [w] can go: the child
    ends within the timeout, it is killed after the timeout, or the call
    waits forever. *)
Inductive StopCase (proc : nat) (timeout : option Z) (w : World)
  : Outcome Z * World -> Prop :=
| StopGraceful (c : Z) (w' : World) :
    trace w' = trace w ++ [EvTerminate proc; EvWait proc timeout (Some c)] ->
    exit_status (clock w') (procs w' proc) = Some c ->
    (forall limit, timeout = Some limit ->
       clock w' <= reading (snd (popen_terminate proc w)) + Z.max 0 limit) ->
    StopCase proc timeout w (Ok c, w')
| StopKilled (limit c : Z) (w' : World) :
    timeout = Some limit ->
    trace w' = trace w ++ [EvTerminate proc; EvWait proc (Some limit) None;
                           EvKill proc; EvWait proc None (Some c)] ->
    exit_status (clock w') (procs w' proc) = Some c ->
    StopCase proc timeout w (Ok c, w')
| StopBlocked (w' : World) :
    timeout = None ->
    mortal (procs w proc) = false ->
    trace w' = trace w ++ [EvTerminate proc] ->
    StopCase proc timeout w (Hang, w').

(** The deadline check of the turn that starts in [w] fires. *)
Definition fires (start : Z) (timeout : option Z) (w : World) : bool :=
  truthy timeout && (timeout_value timeout <? reading w - start).

(** The world after the deadline check of the turn that starts in [w]. *)
Definition checked (timeout : option Z) (w : World) : World :=
  if truthy timeout then log (EvMonotonic (reading w)) (elapse w) else w.

(** The world in which the loop of [wait_for_service] starts. *)
Definition opened (uri : string) (w : World) : World :=
  snd (client_open uri (snd (time_monotonic w))).

(** From [w] to [w'] no child was signalled: the process table is the same
    and no [terminate] was added to the trace. *)
Definition quiet (w w' : World) : Prop :=
  procs w' = procs w /\ forall pid, terminations pid w' = terminations pid w.

Definition quiet_m {A} (m : M A) : Prop := forall w, quiet w (snd (m w)).

(** A computation keeps the relation [R] between the world it starts in
    and the world it ends in. *)
Definition keeps (R : World -> World -> Prop) {A} (m : M A) : Prop :=
  forall w, R w (snd (m w)).

(** From [w] to [w'] time did not go back, the host is the same, no child
    was launched, and the trace only grew. *)
Definition later (w w' : World) : Prop :=
  host w' = host w
  /\ clock w <= clock w'
  /\ next_pid w' = next_pid w
  /\ (pings w <= pings w')%nat
  /\ exists evs, trace w' = trace w ++ evs
                 /\ Forall (fun ev => is_spawn ev = false) evs.

(** From [w] to [w'] no child but [proc] changed. *)
Definition others_same (proc : nat) (w w' : World) : Prop :=
  forall q, q <> proc -> procs w' q = procs w q.

(** The seconds slept so far: the sum of the [time.sleep] calls that
    returned. *)
Fixpoint slept_in (tr : list Event) : Z :=
  match tr with
  | [] => 0
  | EvSleep secs :: tr' => (if secs <? 0 then 0 else secs) + slept_in tr'
  | _ :: tr' => slept_in tr'
  end.

Definition slept (w : World) : Z := slept_in (trace w).

(** A ping that did not succeed and does not end the wait: it returned
    [False] or raised an [APIError]. *)
Definition soft (reply : PingReply) : bool :=
  match reply with
  | Pong ok => negb ok
  | PingRaises e => isinstance_APIError e
  end.

(** The latency of the [k]-th call made from [w] on. *)
Definition lat (w : World) (k : nat) : Z :=
  Z.of_N (latency (host w) (List.length (trace w) + k)).

(** The worlds one turn of the loop goes through from [w]: after the exit
    check, after the ping, after the sleep. *)
Definition polled (proc : nat) (timeout : option Z) (w : World) : World :=
  snd (popen_poll proc (checked timeout w)).

Definition pinged (proc : nat) (timeout : option Z) (w : World) : World :=
  snd (client_ping (polled proc timeout w)).

Definition rested (proc : nat) (timeout : option Z) (check_interval : Z)
    (w : World) : World :=
  snd (time_sleep check_interval (pinged proc timeout w)).

(** The six ways one turn of the loop started in [w] can go. *)
Inductive TurnCase (start : Z) (proc : nat) (timeout : option Z)
    (check_interval : Z) (w : World) : Outcome LoopStep * World -> Prop :=
| TurnTimeout :
    fires start timeout w = true ->
    TurnCase start proc timeout check_interval w
      (Raise (ServiceTimeout (timeout_value timeout)), checked timeout w)
| TurnTerminated (c : Z) :
    fires start timeout w = false ->
    exit_status (clock (polled proc timeout w)) (procs w proc) = Some c ->
    TurnCase start proc timeout check_interval w
      (Raise (ServiceTerminated c), polled proc timeout w)
| TurnReady :
    fires start timeout w = false ->
    exit_status (clock (polled proc timeout w)) (procs w proc) = None ->
    ping_script (host w) (pings w) = Pong true ->
    TurnCase start proc timeout check_interval w
      (Ok Break, pinged proc timeout w)
| TurnFatal (e : exn) :
    fires start timeout w = false ->
    exit_status (clock (polled proc timeout w)) (procs w proc) = None ->
    ping_script (host w) (pings w) = PingRaises e ->
    isinstance_APIError e = false ->
    TurnCase start proc timeout check_interval w
      (Raise e, pinged proc timeout w)
| TurnSleepFails :
    fires start timeout w = false ->
    exit_status (clock (polled proc timeout w)) (procs w proc) = None ->
    soft (ping_script (host w) (pings w)) = true ->
    check_interval < 0 ->
    TurnCase start proc timeout check_interval w
      (Raise (ValueError "sleep length must be non-negative"),
       rested proc timeout check_interval w)
| TurnAgain :
    fires start timeout w = false ->
    exit_status (clock (polled proc timeout w)) (procs w proc) = None ->
    soft (ping_script (host w) (pings w)) = true ->
    0 <= check_interval ->
    TurnCase start proc timeout check_interval w
      (Ok Continue, rested proc timeout check_interval w).

(** The calls the loop of [wait_for_service] may make: it reads the clock,
    sleeps, pings, and polls the child [proc]. *)
Definition is_loop_call (proc : nat) (ev : Event) : bool :=
  match ev with
  | EvMonotonic _ | EvSleep _ | EvPing _ => true
  | EvPoll pid _ => Nat.eqb pid proc
  | _ => false
  end.

(** The calls [wait_for_service] may make: those of its loop, and the
    opening and closing of its client. *)
Definition is_probe (proc : nat) (ev : Event) : bool :=
  match ev with
  | EvClientOpen _ | EvClientClose => true
  | _ => is_loop_call proc ev
  end.

(** From [w] to [w'] only calls of the loop were made and no child
    changed. *)
Definition loop_calls_only (proc : nat) (w w' : World) : Prop :=
  procs w' = procs w
  /\ exists evs, trace w' = trace w ++ evs
                 /\ Forall (fun ev => is_loop_call proc ev = true) evs.

(** An outcome after which the [with] block of the client has been left. *)
Definition left_block {A} (o : Outcome A) : bool :=
  match o with Ok _ | Raise _ => true | _ => false end.

(** ** Scenarios used to run the code *)

Module Scenario.

Definition unreachable : PingReply := PingRaises (APIError "unreachable").

(** A Linux host, one tick per call, the service answering at the third
    ping, a child that runs until told to stop and then exits with 0. *)
Definition linux : Host :=
  mkHost "Linux" (fun _ => 1%N)
    (fun n => if Nat.ltb n 2 then unreachable else Pong true)
    None (Some (5%N, 0)).

Definition darwin : Host :=
  mkHost "Darwin" (fun _ => 1%N) (fun _ => Pong true) None (Some (5%N, 0)).

(** A host whose endpoint answers with a broken reply. *)
Definition broken_endpoint : Host :=
  mkHost "Linux" (fun _ => 1%N)
    (fun _ => PingRaises (OtherException "JSONDecodeError"))
    None (Some (5%N, 0)).

(** A host whose endpoint answers every ping with a reply that is not
    OK: [c.ping()] returns [False]. *)
Definition not_ok : Host :=
  mkHost "Linux" (fun _ => 1%N) (fun _ => Pong false) None (Some (5%N, 0)).

(** A host whose child crashes with code 3 after 50 ticks. *)
Definition crashing : Host :=
  mkHost "Linux" (fun _ => 1%N) (fun _ => unreachable)
    (Some (50%N, 3)) (Some (5%N, 0)).

(** A host whose endpoint never comes up and whose child ignores SIGTERM. *)
Definition stubborn : Host :=
  mkHost "Linux" (fun _ => 1%N) (fun _ => unreachable) None None.

Definition gone (code : Z) : Proc := mkProc (Some (0, code)) None.
Definition running : Proc := mkProc None (Some (5%N, 0)).
Definition deaf : Proc := mkProc None None.

Definition boot (h : Host) : World := mkWorld h 0 (fun _ => gone 0) 0 0 [].

(** A world with one child already there, as process 0. *)
Definition having (h : Host) (p : Proc) : World :=
  mkWorld h 10 (fun _ => p) 1 0 [].

End Scenario.

(** ** Basic facts about the world *)

Lemma reading_ge_clock (w : World) : clock w <= reading w.
Proof. unfold reading. lia. Qed.

Lemma exit_status_later (t t' : Z) (p : Proc) (c : Z) :
  exit_status t p = Some c -> t <= t' -> exit_status t' p = Some c.
Proof.
  unfold exit_status. destruct (exit_plan p) as [[te c0]|]; [|discriminate].
  destruct (Z.leb_spec te t); [|discriminate].
  intros E Ht. destruct (Z.leb_spec te t'); [exact E | lia].
Qed.

Lemma exit_status_plan (t : Z) (p : Proc) (c : Z) :
  exit_status t p = Some c -> exists te, exit_plan p = Some (te, c) /\ te <= t.
Proof.
  unfold exit_status. destruct (exit_plan p) as [[te c0]|]; [|discriminate].
  destruct (Z.leb_spec te t); [|discriminate].
  intros [= ->]. eauto.
Qed.

Lemma deliver_sigterm_exited (t : Z) (p : Proc) (c : Z) :
  exit_status t p = Some c -> deliver_sigterm t p = p.
Proof. unfold deliver_sigterm. now intros ->. Qed.

Lemma deliver_sigterm_mortal (t : Z) (p : Proc) :
  exit_plan (deliver_sigterm t p) = None <-> mortal p = false.
Proof.
  unfold deliver_sigterm, mortal, exit_status.
  destruct (exit_plan p) as [[te c0]|] eqn:Ep, (on_sigterm p) as [[d c]|] eqn:Es;
    simpl; try rewrite Ep; try (split; [discriminate|discriminate]).
  - destruct (te <=? t); [rewrite Ep; split; discriminate|].
    destruct (te <=? t + Z.of_N d); [rewrite Ep|simpl]; split; discriminate.
  - destruct (te <=? t); rewrite Ep; split; discriminate.
  - tauto.
Qed.

Lemma deliver_sigkill_exits (t : Z) (p : Proc) :
  exists te c, exit_plan (deliver_sigkill t p) = Some (te, c) /\ te <= t.
Proof.
  unfold deliver_sigkill. destruct (exit_status t p) as [c|] eqn:E.
  - destruct (exit_status_plan _ _ _ E) as (te & Ep & Hle). eauto.
  - simpl. exists t, (-9). split; [reflexivity | lia].
Qed.

(** ** What [Popen.wait] can do *)

Lemma popen_wait_cases (pid : nat) (timeout : option Z) (w : World) :
  WaitCase pid timeout w (popen_wait pid timeout w).
Proof.
  unfold popen_wait. simpl.
  destruct (exit_plan (procs w pid)) as [[te c]|] eqn:Ep, timeout as [limit|].
  - destruct (Z.leb_spec te (reading w + Z.max 0 limit)).
    + apply WaitExited; simpl; trivial.
      unfold exit_status. rewrite Ep.
      destruct (Z.leb_spec te (Z.max (reading w) te)); [reflexivity | lia].
    + now apply WaitExpired.
  - apply WaitExited; simpl; trivial.
    unfold exit_status. rewrite Ep.
    destruct (Z.leb_spec te (Z.max (reading w) te)); [reflexivity | lia].
  - now apply WaitExpired.
  - now apply WaitForever.
Qed.

(** A child that has exited is reaped at once, whatever the timeout. *)
Lemma popen_wait_exited (pid : nat) (timeout : option Z) (w : World) (c : Z) :
  exit_status (clock w) (procs w pid) = Some c ->
  exists w', popen_wait pid timeout w = (Ok c, w')
    /\ trace w' = trace w ++ [EvWait pid timeout (Some c)]
    /\ procs w' = procs w
    /\ clock w <= clock w'.
Proof.
  intros E. destruct (exit_status_plan _ _ _ E) as (te & Ep & Hle).
  pose proof (reading_ge_clock w) as Hr.
  unfold popen_wait. simpl. rewrite Ep.
  destruct timeout as [limit|].
  - destruct (Z.leb_spec te (reading w + Z.max 0 limit)); [|lia].
    eexists; repeat split; simpl; lia.
  - eexists; repeat split; simpl; lia.
Qed.

(** With a timeout the first wait takes no longer than that timeout. *)
Lemma popen_wait_bounded (pid : nat) (limit : Z) (w : World) :
  clock (snd (popen_wait pid (Some limit) w)) <= reading w + Z.max 0 limit.
Proof.
  unfold popen_wait. simpl.
  destruct (exit_plan (procs w pid)) as [[te c]|]; simpl; [|lia].
  destruct (Z.leb_spec te (reading w + Z.max 0 limit)); simpl; lia.
Qed.

(** ** Launch (C9) *)

(** C9: on a host whose [platform.system()] is not "Linux", [start_service]
    raises the platform error ([PodmanError] with the Linux-only message)
    and leaves the world as it was: the launcher is not called and no child
    exists that did not exist before. *)
Theorem start_service_off_linux (uri : option string) (time : option Z)
    (cors : option string) (w : World) :
  platform_system (host w) <> "Linux"%string ->
  start_service uri time cors w
    = (Raise (PodmanError
         "The `podman system service` command is available only on Linux systems"), w)
  /\ spawns (snd (start_service uri time cors w)) = spawns w
  /\ next_pid (snd (start_service uri time cors w)) = next_pid w.
Proof.
  intros Hsys. apply String.eqb_neq in Hsys.
  unfold start_service, bind, platform_system_call. rewrite Hsys. simpl.
  auto.
Qed.

Lemma start_service_off_linux_witness :
  platform_system (host (Scenario.boot Scenario.darwin)) <> "Linux"%string
  /\ fst (start_service (Some "unix:///run/podman.sock"%string) None None
            (Scenario.boot Scenario.darwin))
     = Raise (PodmanError
         "The `podman system service` command is available only on Linux systems")
  /\ spawns (snd (start_service (Some "unix:///run/podman.sock"%string) None None
                    (Scenario.boot Scenario.darwin))) = 0%nat.
Proof.
  assert (H : platform_system (host (Scenario.boot Scenario.darwin)) <> "Linux"%string)
    by (simpl; discriminate).
  split; [exact H|].
  destruct (start_service_off_linux (Some "unix:///run/podman.sock"%string) None None
              (Scenario.boot Scenario.darwin) H) as (E & S & _).
  rewrite S. rewrite E. split; reflexivity.
Defined.

(** On Linux the launcher is called once and the handle of the new child
    comes back. *)
Lemma start_service_on_linux (uri : option string) (time : option Z)
    (cors : option string) (w : World) :
  platform_system (host w) = "Linux"%string ->
  start_service uri time cors w
    = run_raw (construct "system" "service" uri time cors) w.
Proof.
  intros Hsys. unfold start_service, bind, platform_system_call.
  rewrite Hsys. reflexivity.
Qed.

(** ** Shutdown (C7, C8) *)

Lemma stop_service_unfold (proc : nat) (timeout : option Z) (w : World) :
  stop_service proc timeout w
  = try_except (popen_wait proc timeout)
      (fun e => if isinstance_TimeoutExpired e
                then popen_kill proc ;; popen_wait proc None
                else raise e)
      (snd (popen_terminate proc w)).
Proof. reflexivity. Qed.

Lemma popen_kill_then_wait (proc : nat) (w : World) :
  exists c w',
    (popen_kill proc ;; popen_wait proc None) w = (Ok c, w')
    /\ trace w' = trace w ++ [EvKill proc; EvWait proc None (Some c)]
    /\ exit_status (clock w') (procs w' proc) = Some c.
Proof.
  unfold bind, popen_kill.
  set (w2 := log (EvKill proc) _).
  destruct (deliver_sigkill_exits (reading w) (procs w proc)) as (te & c & Ep & Hle).
  assert (E : exit_status (clock w2) (procs w2 proc) = Some c).
  { subst w2. simpl. rewrite Nat.eqb_refl. unfold exit_status. rewrite Ep.
    destruct (Z.leb_spec te (reading w)); [reflexivity | lia]. }
  destruct (popen_wait_exited proc None w2 c E) as (w' & Ew & Tr & Pr & Hc).
  exists c, w'. rewrite Ew. split; [reflexivity|]. split.
  - rewrite Tr. subst w2. simpl. now rewrite <- app_assoc.
  - rewrite Pr. apply exit_status_later with (t := clock w2); [|exact Hc].
    exact E.
Qed.

Lemma stop_service_cases (proc : nat) (timeout : option Z) (w : World) :
  StopCase proc timeout w (stop_service proc timeout w).
Proof.
  rewrite stop_service_unfold.
  set (w1 := snd (popen_terminate proc w)).
  assert (T1 : trace w1 = trace w ++ [EvTerminate proc]) by reflexivity.
  assert (P1 : procs w1 proc = deliver_sigterm (reading w) (procs w proc)).
  { subst w1. simpl. now rewrite Nat.eqb_refl. }
  unfold try_except.
  pose proof (popen_wait_cases proc timeout w1) as Hc.
  destruct (popen_wait proc timeout w1) as [o w'] eqn:Ew.
  inversion Hc as [c w2 Tr Pr E|limit w2 Et Tr Pr|w2 Et Tr Pr Ep]; subst o w2.
  - apply StopGraceful; trivial.
    + rewrite Tr, T1, <- app_assoc. reflexivity.
    + intros limit ->.
      pose proof (popen_wait_bounded proc limit w1) as Hb.
      now rewrite Ew in Hb.
  - subst timeout. simpl.
    destruct (popen_kill_then_wait proc w') as (c & w2 & Ek & Tk & Ex).
    rewrite Ek. apply StopKilled with (limit := limit); trivial.
    rewrite Tk, Tr, T1, <- !app_assoc. reflexivity.
  - subst timeout. apply StopBlocked; trivial.
    rewrite P1 in Ep. now apply deliver_sigterm_mortal in Ep.
Qed.

(** C7: [stop_service] always calls [proc.terminate()] first; it then waits
    with the timeout it was given; when that wait raises [TimeoutExpired] it
    calls [proc.kill()] and waits again without a timeout; and whenever it
    returns, the value is the exit code with which the child has ended,
    after a graceful exit as after a kill.  It never raises, and it returns
    whenever a timeout was given: it only blocks when there is none and the
    child neither ends on its own nor reacts to SIGTERM. *)
Theorem stop_service_escalation (proc : nat) (timeout : option Z) (w : World) :
  let r := stop_service proc timeout w in
  (exists rest, trace (snd r) = trace w ++ EvTerminate proc :: rest)
  /\ ((exists c,
         fst r = Ok c
         /\ trace (snd r) = trace w ++ [EvTerminate proc; EvWait proc timeout (Some c)]
         /\ exit_status (clock (snd r)) (procs (snd r) proc) = Some c
         /\ (forall limit, timeout = Some limit ->
               clock (snd r) <= reading (snd (popen_terminate proc w)) + Z.max 0 limit))
      \/ (exists limit c,
            timeout = Some limit
            /\ fst r = Ok c
            /\ trace (snd r)
               = trace w ++ [EvTerminate proc; EvWait proc (Some limit) None;
                             EvKill proc; EvWait proc None (Some c)]
            /\ exit_status (clock (snd r)) (procs (snd r) proc) = Some c)
      \/ (timeout = None
          /\ fst r = Hang
          /\ mortal (procs w proc) = false
          /\ trace (snd r) = trace w ++ [EvTerminate proc])).
Proof.
  intros r. subst r.
  destruct (stop_service_cases proc timeout w)
    as [c w' Tr Ex Hb|limit c w' Et Tr Ex|w' Et Hm Tr]; simpl fst; simpl snd.
  - split; [rewrite Tr; eauto|].
    left. exists c. auto.
  - split; [rewrite Tr; eauto|].
    right; left. exists limit, c. auto.
  - split; [rewrite Tr; eauto|].
    right; right. auto.
Qed.

Lemma stop_service_exited (proc : nat) (timeout : option Z) (w : World) (c : Z) :
  exit_status (clock w) (procs w proc) = Some c ->
  exists w',
    stop_service proc timeout w = (Ok c, w')
    /\ trace w' = trace w ++ [EvTerminate proc; EvWait proc timeout (Some c)]
    /\ procs w' proc = procs w proc
    /\ exit_status (clock w') (procs w' proc) = Some c.
Proof.
  intros E. rewrite stop_service_unfold.
  set (w1 := snd (popen_terminate proc w)).
  pose proof (reading_ge_clock w) as Hr.
  assert (E0 : exit_status (reading w) (procs w proc) = Some c)
    by (now apply exit_status_later with (t := clock w)).
  assert (P1 : procs w1 proc = procs w proc).
  { subst w1. simpl. rewrite Nat.eqb_refl. now apply deliver_sigterm_exited with (c := c). }
  assert (E1 : exit_status (clock w1) (procs w1 proc) = Some c)
    by (rewrite P1; exact E0).
  destruct (popen_wait_exited proc timeout w1 c E1) as (w' & Ew & Tr & Pr & Hc).
  exists w'. unfold try_except. rewrite Ew. split; [reflexivity|].
  split; [|split].
  - rewrite Tr. subst w1. simpl. now rewrite <- app_assoc.
  - now rewrite Pr.
  - rewrite Pr. now apply exit_status_later with (t := clock w1).
Qed.

(** C8: on a child that has already exited, [stop_service] returns that
    child's exit code and raises nothing, whatever the timeout; the child is
    left as it was, and stopping it again returns the same code again. *)
Theorem stop_service_idempotent (proc : nat) (timeout timeout' : option Z)
    (w : World) (c : Z) :
  exit_status (clock w) (procs w proc) = Some c ->
  fst (stop_service proc timeout w) = Ok c
  /\ procs (snd (stop_service proc timeout w)) proc = procs w proc
  /\ fst (stop_service proc timeout' (snd (stop_service proc timeout w))) = Ok c.
Proof.
  intros E.
  destruct (stop_service_exited proc timeout w c E) as (w' & Es & _ & Pr & E').
  destruct (stop_service_exited proc timeout' w' c E') as (w'' & Es' & _).
  rewrite Es. simpl. rewrite Es'. auto.
Qed.

Lemma stop_service_idempotent_witness :
  exit_status (clock (Scenario.having Scenario.linux (Scenario.gone 3)))
    (procs (Scenario.having Scenario.linux (Scenario.gone 3)) 0%nat) = Some 3
  /\ fst (stop_service 0 None (Scenario.having Scenario.linux (Scenario.gone 3))) = Ok 3
  /\ fst (stop_service 0 (Some 5000)
            (snd (stop_service 0 None (Scenario.having Scenario.linux (Scenario.gone 3)))))
     = Ok 3.
Proof.
  assert (E : exit_status (clock (Scenario.having Scenario.linux (Scenario.gone 3)))
                (procs (Scenario.having Scenario.linux (Scenario.gone 3)) 0%nat) = Some 3)
    by reflexivity.
  split; [exact E|].
  destruct (stop_service_idempotent 0 None (Some 5000) _ 3 E) as (H1 & _ & H2).
  split; [exact H1 | exact H2].
Defined.

(** ** The readiness loop (C2, C3, C4, C5) *)

Lemma deadline_passed_eq (start : Z) (timeout : option Z) (w : World) :
  deadline_passed start timeout w = (Ok (fires start timeout w), checked timeout w).
Proof.
  unfold deadline_passed, fires, checked.
  destruct (truthy timeout); reflexivity.
Qed.

Lemma checked_facts (timeout : option Z) (w : World) :
  clock w <= clock (checked timeout w)
  /\ procs (checked timeout w) = procs w
  /\ pings (checked timeout w) = pings w
  /\ host (checked timeout w) = host w.
Proof.
  unfold checked. pose proof (reading_ge_clock w).
  destruct (truthy timeout); simpl; repeat split; lia.
Qed.

Lemma wait_iteration_fires (start : Z) (proc : nat) (timeout : option Z)
    (check_interval : Z) (w : World) :
  fires start timeout w = true ->
  wait_iteration start proc timeout check_interval w
  = (Raise (ServiceTimeout (timeout_value timeout)), checked timeout w).
Proof.
  intros F. unfold wait_iteration, bind.
  rewrite deadline_passed_eq, F. reflexivity.
Qed.

Lemma wait_iteration_exited (start : Z) (proc : nat) (timeout : option Z)
    (check_interval : Z) (w : World) (c : Z) :
  fires start timeout w = false ->
  exit_status (clock w) (procs w proc) = Some c ->
  wait_iteration start proc timeout check_interval w
  = (Raise (ServiceTerminated c),
     log (EvPoll proc (Some c)) (elapse (checked timeout w))).
Proof.
  intros F E. unfold wait_iteration, bind.
  rewrite deadline_passed_eq, F.
  destruct (checked_facts timeout w) as (Hc & Hp & _).
  pose proof (reading_ge_clock (checked timeout w)) as Hr.
  unfold popen_poll. simpl. rewrite Hp.
  rewrite (exit_status_later (clock w) (reading (checked timeout w)) _ c E) by lia.
  reflexivity.
Qed.

Lemma wait_loop_raises (fuel : nat) (start : Z) (proc : nat)
    (timeout : option Z) (check_interval : Z) (w w' : World) (e : exn) :
  wait_iteration start proc timeout check_interval w = (Raise e, w') ->
  wait_loop (S fuel) start proc timeout check_interval w = (Raise e, w').
Proof. intros E. simpl. unfold bind. now rewrite E. Qed.

Lemma wait_loop_continues (fuel : nat) (start : Z) (proc : nat)
    (timeout : option Z) (check_interval : Z) (w w' : World) :
  wait_iteration start proc timeout check_interval w = (Ok Continue, w') ->
  wait_loop (S fuel) start proc timeout check_interval w
  = wait_loop fuel start proc timeout check_interval w'.
Proof. intros E. simpl. unfold bind. now rewrite E. Qed.

Lemma wait_for_service_unfold (fuel : nat) (uri : string) (proc : nat)
    (timeout : option Z) (check_interval : Z) (w : World) :
  wait_for_service fuel uri proc timeout check_interval w
  = finally (wait_loop fuel (reading w) proc timeout check_interval)
      client_close (opened uri w).
Proof. reflexivity. Qed.

(** Whatever the loop raises leaves [wait_for_service], once the client is
    closed. *)
Lemma wait_for_service_propagates (fuel : nat) (uri : string) (proc : nat)
    (timeout : option Z) (check_interval : Z) (w w' : World) (e : exn) :
  wait_loop fuel (reading w) proc timeout check_interval (opened uri w)
    = (Raise e, w') ->
  wait_for_service fuel uri proc timeout check_interval w
  = (Raise e, log EvClientClose (elapse w')).
Proof.
  intros E. rewrite wait_for_service_unfold. unfold finally. now rewrite E.
Qed.

Lemma opened_facts (uri : string) (w : World) :
  trace (opened uri w) = trace w ++ [EvMonotonic (reading w); EvClientOpen uri]
  /\ clock w <= clock (opened uri w)
  /\ procs (opened uri w) = procs w
  /\ pings (opened uri w) = pings w.
Proof.
  unfold opened. simpl. repeat split.
  - now rewrite <- app_assoc.
  - pose proof (reading_ge_clock w).
    pose proof (reading_ge_clock (log (EvMonotonic (reading w)) (elapse w))) as H1.
    simpl in H1. unfold reading at 1. simpl. unfold reading in *. simpl in *. lia.
Qed.

(** C3, as the code has it: in a turn of the loop that starts with the
    child already exited, no ping is made and the turn is the last one.  It
    ends the wait with [ServiceTerminated(code)], [code] being the child's
    exit code, unless the deadline check of that turn fires, which comes
    first and ends the wait with [ServiceTimeout]; success is reported in
    neither case.  The same holds for a whole call of [wait_for_service]
    made on a child that has exited. *)
Theorem exited_child_never_ready (fuel : nat) (uri : string) (start : Z)
    (proc : nat) (timeout : option Z) (check_interval : Z) (w : World) (c : Z) :
  exit_status (clock w) (procs w proc) = Some c ->
  (let r := wait_loop (S fuel) start proc timeout check_interval w in
   pings (snd r) = pings w
   /\ fst r = (if fires start timeout w
               then Raise (ServiceTimeout (timeout_value timeout))
               else Raise (ServiceTerminated c)))
  /\ (let r := wait_for_service (S fuel) uri proc timeout check_interval w in
      pings (snd r) = pings w
      /\ fst r = (if fires (reading w) timeout (opened uri w)
                  then Raise (ServiceTimeout (timeout_value timeout))
                  else Raise (ServiceTerminated c))).
Proof.
  intros E.
  assert (L : forall s w0, exit_status (clock w0) (procs w0 proc) = Some c ->
            let r := wait_loop (S fuel) s proc timeout check_interval w0 in
            pings (snd r) = pings w0
            /\ fst r = (if fires s timeout w0
                        then Raise (ServiceTimeout (timeout_value timeout))
                        else Raise (ServiceTerminated c))
            /\ exists e, fst r = Raise e).
  { intros s w0 E0. destruct (checked_facts timeout w0) as (_ & _ & Hp & _).
    destruct (fires s timeout w0) eqn:F.
    - rewrite (wait_loop_raises _ _ _ _ _ _ _ _
                 (wait_iteration_fires s proc timeout check_interval w0 F)).
      simpl. eauto.
    - rewrite (wait_loop_raises _ _ _ _ _ _ _ _
                 (wait_iteration_exited s proc timeout check_interval w0 c F E0)).
      simpl. eauto. }
  split.
  - destruct (L start w E) as (H1 & H2 & _). split; assumption.
  - destruct (opened_facts uri w) as (_ & Hc & Hp & Hn).
    assert (E1 : exit_status (clock (opened uri w)) (procs (opened uri w) proc) = Some c)
      by (rewrite Hp; now apply exit_status_later with (t := clock w)).
    destruct (L (reading w) (opened uri w) E1) as (H1 & H2 & e & H3).
    destruct (wait_loop (S fuel) (reading w) proc timeout check_interval (opened uri w))
      as [o w'] eqn:El.
    simpl in H1, H2, H3. rewrite H3 in El.
    rewrite (wait_for_service_propagates _ _ _ _ _ _ _ _ El). simpl.
    split; [congruence | now rewrite <- H3].
Qed.

Lemma exited_child_never_ready_witness :
  exit_status (clock (Scenario.having Scenario.linux (Scenario.gone 3)))
    (procs (Scenario.having Scenario.linux (Scenario.gone 3)) 0%nat) = Some 3
  /\ fst (wait_for_service 1 "http://x" 0 (Some 2000) 100
            (Scenario.having Scenario.linux (Scenario.gone 3)))
     = Raise (ServiceTerminated 3)
  /\ pings (snd (wait_for_service 1 "http://x" 0 (Some 2000) 100
                   (Scenario.having Scenario.linux (Scenario.gone 3)))) = 0%nat.
Proof.
  assert (E : exit_status (clock (Scenario.having Scenario.linux (Scenario.gone 3)))
                (procs (Scenario.having Scenario.linux (Scenario.gone 3)) 0%nat) = Some 3)
    by reflexivity.
  split; [exact E|].
  destruct (exited_child_never_ready 0 "http://x" 0 0 (Some 2000) 100 _ 3 E)
    as (_ & H1 & H2).
  split; [exact H2 | exact H1].
Defined.

(** C3 as worded fails: the child crashes with code 3 during the first sleep,
    before any ping succeeded, and the wait still ends with
    [ServiceTimeout], because the deadline (80 ticks) passed during the same
    sleep and is checked first. *)
Lemma exited_child_reported_as_timeout :
  let w := Scenario.having Scenario.crashing (mkProc (Some (60, 3)) None) in
  let r := wait_for_service 5 "http://x" 0 (Some 80) 100 w in
  exit_status (clock (snd r)) (procs (snd r) 0%nat) = Some 3
  /\ ~ In (EvPing (Pong true)) (trace (snd r))
  /\ fst r = Raise (ServiceTimeout 80)
  /\ fst r <> Raise (ServiceTerminated 3).
Proof.
  vm_compute. repeat split; try discriminate.
  intros H. repeat (destruct H as [H|H]; [discriminate H|]). exact H.
Qed.

(** A turn whose deadline check fires reads the clock and raises. *)
Lemma wait_loop_deadline (fuel : nat) (start : Z) (proc : nat)
    (t check_interval : Z) (w : World) :
  t <> 0 ->
  t < reading w - start ->
  wait_loop (S fuel) start proc (Some t) check_interval w
  = (Raise (ServiceTimeout t), log (EvMonotonic (reading w)) (elapse w)).
Proof.
  intros Ht Hel. apply wait_loop_raises.
  rewrite wait_iteration_fires.
  - unfold checked, truthy. apply Z.eqb_neq in Ht. now rewrite Ht.
  - unfold fires, truthy. apply Z.eqb_neq in Ht. rewrite Ht. simpl.
    now apply Z.ltb_lt.
Qed.

(** C4, as the code has it: in a turn of the loop for which a non-zero
    timeout is set and the time elapsed since [start] exceeds it, the wait
    ends with [ServiceTimeout(timeout)] whether or not the child has exited:
    the clock is read, nothing else is called, the child is not polled. *)
Theorem deadline_before_exit_check (fuel : nat) (start : Z) (proc : nat)
    (t check_interval : Z) (w : World) :
  t <> 0 ->
  t < reading w - start ->
  let r := wait_loop (S fuel) start proc (Some t) check_interval w in
  fst r = Raise (ServiceTimeout t)
  /\ trace (snd r) = trace w ++ [EvMonotonic (reading w)]
  /\ pings (snd r) = pings w.
Proof.
  intros Ht Hel r. subst r.
  rewrite (wait_loop_deadline fuel start proc t check_interval w Ht Hel).
  repeat split.
Qed.

Lemma deadline_before_exit_check_witness :
  let w := Scenario.having Scenario.linux (Scenario.gone 3) in
  exit_status (clock w) (procs w 0%nat) = Some 3
  /\ fst (wait_loop 1 0 0 (Some 5) 100 w) = Raise (ServiceTimeout 5)
  /\ trace (snd (wait_loop 1 0 0 (Some 5) 100 w)) = [EvMonotonic 11].
Proof.
  split; [reflexivity|].
  destruct (deadline_before_exit_check 0 0 0 5 100
              (Scenario.having Scenario.linux (Scenario.gone 3)))
    as (H1 & H2 & _).
  - discriminate.
  - vm_compute. reflexivity.
  - split; [exact H1 | exact H2].
Defined.

(** C4 as worded fails for the timeout 0: it is set and the elapsed time
    exceeds it, yet the wait on a child that has exited with code 3 ends
    with [ServiceTerminated(3)], the deadline check being skipped. *)
Lemma zero_timeout_reports_exit :
  let w := Scenario.having Scenario.linux (Scenario.gone 3) in
  let r := wait_for_service 5 "http://x" 0 (Some 0) 100 w in
  0 < clock (snd r) - reading w
  /\ fst r = Raise (ServiceTerminated 3)
  /\ fst r <> Raise (ServiceTimeout 0)
  /\ trace (snd r)
     = [EvMonotonic 11; EvClientOpen "http://x"; EvPoll 0 (Some 3); EvClientClose].
Proof. vm_compute. repeat split; discriminate. Qed.

Lemma wait_loop_zero_timeout (fuel : nat) (start : Z) (proc : nat)
    (check_interval : Z) (w : World) :
  wait_loop fuel start proc (Some 0) check_interval w
  = wait_loop fuel start proc None check_interval w.
Proof.
  revert w. induction fuel as [|fuel IH]; intros w; [reflexivity|].
  simpl. unfold bind.
  change (wait_iteration start proc (Some 0) check_interval w)
    with (wait_iteration start proc None check_interval w).
  destruct (wait_iteration start proc None check_interval w) as [[[]| | |] w'];
    try reflexivity.
  apply IH.
Qed.

(** C2, as the code has it: a call of [wait_for_service] with a non-zero
    timeout, made when the clock at the first deadline check is already more
    than that timeout past the start, ends with [ServiceTimeout(timeout)]
    without one ping and without polling the child.  A timeout of 0 is no
    timeout at all: the call behaves as with [None]. *)
Theorem expired_deadline_no_ping (fuel : nat) (uri : string) (proc : nat)
    (t check_interval : Z) (w : World) :
  (wait_for_service fuel uri proc (Some 0) check_interval w
   = wait_for_service fuel uri proc None check_interval w)
  /\ (t <> 0 ->
      t < reading (opened uri w) - reading w ->
      let r := wait_for_service (S fuel) uri proc (Some t) check_interval w in
      fst r = Raise (ServiceTimeout t)
      /\ pings (snd r) = pings w
      /\ trace (snd r)
         = trace w ++ [EvMonotonic (reading w); EvClientOpen uri;
                       EvMonotonic (reading (opened uri w)); EvClientClose]).
Proof.
  split.
  - rewrite !wait_for_service_unfold. unfold finally.
    now rewrite wait_loop_zero_timeout.
  - intros Ht Hel r. subst r.
    rewrite (wait_for_service_propagates _ _ _ _ _ _ _ _
               (wait_loop_deadline fuel (reading w) proc t check_interval
                  (opened uri w) Ht Hel)).
    simpl fst. simpl snd. split; [reflexivity|]. split.
    + reflexivity.
    + simpl. rewrite <- !app_assoc. reflexivity.
Qed.

Lemma expired_deadline_no_ping_witness :
  let w := Scenario.having Scenario.linux Scenario.running in
  let r := wait_for_service 1 "http://x" 0 (Some 1) 100 w in
  fst r = Raise (ServiceTimeout 1) /\ pings (snd r) = 0%nat.
Proof.
  destruct (expired_deadline_no_ping 0 "http://x" 0 1 100
              (Scenario.having Scenario.linux Scenario.running)) as (_ & H).
  destruct H as (H1 & H2 & _).
  - discriminate.
  - vm_compute. reflexivity.
  - split; [exact H1 | exact H2].
Defined.

(** C2 as worded fails: with the timeout 0 and a live child the wait pings
    (three times here) and returns successfully instead of raising
    [ServiceTimeout]. *)
Lemma zero_timeout_pings :
  let w := Scenario.having Scenario.linux Scenario.running in
  let r := wait_for_service 5 "http://x" 0 (Some 0) 100 w in
  fst r = Ok tt
  /\ fst r <> Raise (ServiceTimeout 0)
  /\ pings (snd r) = 3%nat
  /\ In (EvPing (Pong true)) (trace (snd r)).
Proof.
  vm_compute. repeat split; try discriminate.
  do 9 right. left. reflexivity.
Qed.

Lemma client_ping_eq (w : World) :
  client_ping w
  = (match ping_script (host w) (pings w) with
     | Pong ok => Ok ok
     | PingRaises e => Raise e
     end, snd (client_ping w))
  /\ trace (snd (client_ping w))
     = trace w ++ [EvPing (ping_script (host w) (pings w))].
Proof.
  unfold client_ping.
  destruct (ping_script (host w) (pings w)); simpl; auto.
Qed.

(** C5, as the code has it: in a turn of the loop that gets as far as the
    ping (the deadline check passes, the child is found alive), a ping that
    fails softly, by raising an exception of class [APIError] or by
    returning [False], is swallowed: the turn goes on to the sleep and the
    loop to its next turn.  A ping that raises an exception of any other
    class leaves the loop at once with that exception, nothing being called
    after the ping; and a ping that returns [True] ends the loop with
    success.  So the soft failures are the only replies after which the
    loop keeps polling. *)
Theorem ping_reply_policy (fuel : nat) (start : Z) (proc : nat)
    (timeout : option Z) (check_interval : Z) (w w1 w2 : World) :
  deadline_passed start timeout w = (Ok false, w1) ->
  popen_poll proc w1 = (Ok None, w2) ->
  let reply := ping_script (host w2) (pings w2) in
  let w3 := snd (client_ping w2) in
  trace w3 = trace w2 ++ [EvPing reply]
  /\ (soft reply = true ->
      wait_loop (S fuel) start proc timeout check_interval w
      = (time_sleep check_interval ;;
         wait_loop fuel start proc timeout check_interval) w3)
  /\ (forall e, reply = PingRaises e -> isinstance_APIError e = false ->
      wait_loop (S fuel) start proc timeout check_interval w = (Raise e, w3))
  /\ (reply = Pong true ->
      wait_loop (S fuel) start proc timeout check_interval w = (Ok tt, w3)).
Proof.
  intros Hd Hp reply w3.
  destruct (client_ping_eq w2) as (Ec & Tr).
  fold reply in Ec, Tr. fold w3 in Ec, Tr.
  split; [exact Tr|].
  assert (Hloop : wait_loop (S fuel) start proc timeout check_interval w
            = match reply with
              | Pong true => (Ok tt, w3)
              | Pong false =>
                  (time_sleep check_interval ;;
                   wait_loop fuel start proc timeout check_interval) w3
              | PingRaises e =>
                  if isinstance_APIError e
                  then (time_sleep check_interval ;;
                        wait_loop fuel start proc timeout check_interval) w3
                  else (Raise e, w3)
              end).
  { simpl. unfold bind, wait_iteration, bind. rewrite Hd, Hp.
    unfold try_except. rewrite Ec.
    destruct reply as [[|]|e]; [reflexivity| |].
    - unfold ret.
      destruct (time_sleep check_interval w3) as [[[]| | |] w4]; reflexivity.
    - destruct (isinstance_APIError e); [|reflexivity].
      unfold ret.
      destruct (time_sleep check_interval w3) as [[[]| | |] w4]; reflexivity. }
  rewrite Hloop. split; [|split].
  - destruct reply as [[|]|e]; simpl; intros Hs;
      [discriminate | reflexivity | now rewrite Hs].
  - intros e -> Hcls. now rewrite Hcls.
  - now intros ->.
Qed.

Lemma ping_reply_policy_witness :
  (let w := Scenario.having Scenario.linux Scenario.running in
   wait_loop 3 11 0 (Some 2000) 100 w
   = (time_sleep 100 ;; wait_loop 2 11 0 (Some 2000) 100)
       (snd (client_ping (snd (popen_poll 0
          (snd (deadline_passed 11 (Some 2000) w)))))))
  /\ (let w := Scenario.having Scenario.not_ok Scenario.running in
      wait_loop 3 11 0 (Some 2000) 100 w
      = (time_sleep 100 ;; wait_loop 2 11 0 (Some 2000) 100)
          (snd (client_ping (snd (popen_poll 0
             (snd (deadline_passed 11 (Some 2000) w)))))))
  /\ (let w := Scenario.having Scenario.broken_endpoint Scenario.running in
      fst (wait_loop 3 11 0 (Some 2000) 100 w)
      = Raise (OtherException "JSONDecodeError")).
Proof.
  split; [|split].
  - pose proof (ping_reply_policy 2 11 0 (Some 2000) 100
             (Scenario.having Scenario.linux Scenario.running)
             (snd (deadline_passed 11 (Some 2000)
                     (Scenario.having Scenario.linux Scenario.running)))
             (snd (popen_poll 0 (snd (deadline_passed 11 (Some 2000)
                     (Scenario.having Scenario.linux Scenario.running)))))
             eq_refl eq_refl) as (_ & H & _).
    exact (H eq_refl).
  - pose proof (ping_reply_policy 2 11 0 (Some 2000) 100
             (Scenario.having Scenario.not_ok Scenario.running)
             (snd (deadline_passed 11 (Some 2000)
                     (Scenario.having Scenario.not_ok Scenario.running)))
             (snd (popen_poll 0 (snd (deadline_passed 11 (Some 2000)
                     (Scenario.having Scenario.not_ok Scenario.running)))))
             eq_refl eq_refl) as (_ & H & _).
    exact (H eq_refl).
  - pose proof (ping_reply_policy 2 11 0 (Some 2000) 100
             (Scenario.having Scenario.broken_endpoint Scenario.running)
             (snd (deadline_passed 11 (Some 2000)
                     (Scenario.having Scenario.broken_endpoint Scenario.running)))
             (snd (popen_poll 0 (snd (deadline_passed 11 (Some 2000)
                     (Scenario.having Scenario.broken_endpoint Scenario.running)))))
             eq_refl eq_refl) as (_ & _ & H & _).
    cbv zeta. rewrite (H (OtherException "JSONDecodeError") eq_refl eq_refl).
    reflexivity.
Defined.

(** C5 as worded fails: a ping that fails by returning [False] is no
    [APIError], yet it neither propagates nor ends the wait.  The turn ends
    with the sleep and asks for another turn, and the whole call goes on to
    ping three times before its deadline passes. *)
Lemma false_ping_is_swallowed :
  let w := Scenario.having Scenario.not_ok Scenario.running in
  let turn := wait_iteration 11 0 (Some 250) 100 w in
  let r := wait_for_service 5 "http://x" 0 (Some 250) 100 w in
  ping_script (host w) 0 = Pong false
  /\ fst turn = Ok Continue
  /\ trace (snd turn)
     = [EvMonotonic 11; EvPoll 0 None; EvPing (Pong false); EvSleep 100]
  /\ pings (snd r) = 3%nat
  /\ fst r = Raise (ServiceTimeout 250).
Proof. vm_compute. repeat split. Qed.

(** ** Calls that leave the children alone *)

Lemma terminations_app (pid : nat) (w w' : World) (evs : list Event) :
  trace w' = trace w ++ evs ->
  terminations pid w'
  = (terminations pid w + List.length (filter (is_terminate pid) evs))%nat.
Proof.
  intros E. unfold terminations. now rewrite E, filter_app, length_app.
Qed.

Lemma quiet_refl (w : World) : quiet w w.
Proof. split; auto. Qed.

Lemma quiet_trans (w1 w2 w3 : World) : quiet w1 w2 -> quiet w2 w3 -> quiet w1 w3.
Proof. intros [P1 T1] [P2 T2]. split; [congruence|]. intros. now rewrite T2. Qed.

Lemma quiet_step (w w' : World) (ev : Event) :
  procs w' = procs w ->
  trace w' = trace w ++ [ev] ->
  (forall pid, is_terminate pid ev = false) ->
  quiet w w'.
Proof.
  intros P T H. split; [exact P|]. intros pid.
  rewrite (terminations_app pid w w' [ev] T). simpl. rewrite H. simpl. lia.
Qed.

Create HintDb quiet.
#[local] Hint Resolve quiet_refl : quiet.

Lemma bind_quiet {A B} (m : M A) (k : A -> M B) :
  quiet_m m -> (forall a, quiet_m (k a)) -> quiet_m (bind m k).
Proof.
  intros Hm Hk w. unfold bind. specialize (Hm w).
  destruct (m w) as [[a| | |] w1]; simpl in *; trivial.
  eapply quiet_trans; [exact Hm | apply Hk].
Qed.

Lemma try_except_quiet {A} (m : M A) (h : exn -> M A) :
  quiet_m m -> (forall e, quiet_m (h e)) -> quiet_m (try_except m h).
Proof.
  intros Hm Hh w. unfold try_except. specialize (Hm w).
  destruct (m w) as [[a| e | |] w1]; simpl in *; trivial.
  eapply quiet_trans; [exact Hm | apply Hh].
Qed.

Lemma finally_quiet {A} (m : M A) (release : M unit) :
  quiet_m m -> quiet_m release -> quiet_m (finally m release).
Proof.
  intros Hm Hr w. unfold finally. specialize (Hm w).
  destruct (m w) as [[a| e | |] w1]; simpl in *; trivial;
    (eapply quiet_trans; [exact Hm|]);
    apply bind_quiet; trivial; intros _ w2; apply quiet_refl.
Qed.

Lemma ret_quiet {A} (a : A) : quiet_m (ret a).
Proof. intros w. apply quiet_refl. Qed.

Lemma raise_quiet {A} (e : exn) : quiet_m (@raise A e).
Proof. intros w. apply quiet_refl. Qed.

Lemma time_monotonic_quiet : quiet_m time_monotonic.
Proof. intros w. now apply quiet_step with (ev := EvMonotonic (reading w)). Qed.

Lemma time_sleep_quiet (secs : Z) : quiet_m (time_sleep secs).
Proof.
  intros w. unfold time_sleep.
  destruct (secs <? 0); now apply quiet_step with (ev := EvSleep secs).
Qed.

Lemma client_open_quiet (uri : string) : quiet_m (client_open uri).
Proof. intros w. now apply quiet_step with (ev := EvClientOpen uri). Qed.

Lemma client_close_quiet : quiet_m client_close.
Proof. intros w. now apply quiet_step with (ev := EvClientClose). Qed.

Lemma client_ping_quiet : quiet_m client_ping.
Proof.
  intros w. unfold client_ping.
  destruct (ping_script (host w) (pings w)) as [ok|e] eqn:E;
    now apply quiet_step with (ev := EvPing (ping_script (host w) (pings w)));
    rewrite ?E.
Qed.

Lemma popen_poll_quiet (pid : nat) : quiet_m (popen_poll pid).
Proof.
  intros w.
  now apply quiet_step
    with (ev := EvPoll pid (exit_status (reading w) (procs w pid))).
Qed.

#[local] Hint Resolve ret_quiet raise_quiet time_monotonic_quiet time_sleep_quiet
  client_open_quiet client_close_quiet client_ping_quiet popen_poll_quiet : quiet.

Lemma wait_iteration_quiet (start : Z) (proc : nat) (timeout : option Z)
    (check_interval : Z) :
  quiet_m (wait_iteration start proc timeout check_interval).
Proof.
  unfold wait_iteration, deadline_passed.
  apply bind_quiet.
  - destruct (truthy timeout); [apply bind_quiet|]; auto with quiet.
  - intros [|]; [auto with quiet|].
    apply bind_quiet; [auto with quiet|].
    intros [code|]; [auto with quiet|].
    apply bind_quiet.
    + apply try_except_quiet; [auto with quiet|].
      intros e. destruct (isinstance_APIError e); auto with quiet.
    + intros [|]; [auto with quiet|].
      apply bind_quiet; auto with quiet.
Qed.

Lemma wait_loop_quiet (fuel : nat) (start : Z) (proc : nat)
    (timeout : option Z) (check_interval : Z) :
  quiet_m (wait_loop fuel start proc timeout check_interval).
Proof.
  induction fuel as [|fuel IH]; simpl.
  - intros w. apply quiet_refl.
  - apply bind_quiet; [apply wait_iteration_quiet|].
    intros [|]; [exact IH | auto with quiet].
Qed.

Lemma wait_for_service_quiet (fuel : nat) (uri : string) (proc : nat)
    (timeout : option Z) (check_interval : Z) :
  quiet_m (wait_for_service fuel uri proc timeout check_interval).
Proof.
  unfold wait_for_service.
  apply bind_quiet; [auto with quiet|]. intros start.
  apply bind_quiet; [auto with quiet|]. intros _.
  apply finally_quiet; [apply wait_loop_quiet | auto with quiet].
Qed.

(** A successful launch adds one child and signals none. *)
Lemma start_service_launches (uri : option string) (time : option Z)
    (cors : option string) (w w0 : World) (proc : nat) :
  start_service uri time cors w = (Ok proc, w0) ->
  proc = next_pid w
  /\ trace w0 = trace w ++ [EvSpawn (construct "system" "service" uri time cors) proc]
  /\ (forall pid, terminations pid w0 = terminations pid w).
Proof.
  unfold start_service, bind, platform_system_call.
  destruct (negb (String.eqb (platform_system (host w)) "Linux")); [discriminate|].
  unfold run_raw. simpl. intros [= <- <-]. simpl.
  split; [reflexivity|]. split; [reflexivity|].
  intros pid. unfold terminations. simpl. rewrite filter_app. simpl.
  now rewrite app_nil_r.
Qed.

(** ** The scoped session (C1, C6, C10) *)

Lemma service_enter_on_failure (fuel : nat) (uri : string) (cors : option string)
    (ping_timeout stop_timeout : option Z) (w w0 w1 : World) (proc : nat)
    (e : exn) :
  start_service (Some uri) (Some 0) cors w = (Ok proc, w0) ->
  wait_for_service fuel uri proc ping_timeout default_check_interval w0
    = (Raise e, w1) ->
  service_enter fuel uri cors ping_timeout stop_timeout w
  = if isinstance_ServiceTimeout_or_Terminated e
    then match stop_service proc stop_timeout w1 with
         | (Ok _, w2) => (Raise e, w2)
         | (Raise e', w2) => (Raise e', w2)
         | (Hang, w2) => (Hang, w2)
         | (OutOfFuel, w2) => (OutOfFuel, w2)
         end
    else (Raise e, w1).
Proof.
  intros Hs Hw. unfold service_enter, bind. rewrite Hs.
  unfold try_except. rewrite Hw.
  destruct (isinstance_ServiceTimeout_or_Terminated e); [|reflexivity].
  unfold bind.
  destruct (stop_service proc stop_timeout w1) as [[c|e'| |] w2]; reflexivity.
Qed.

Lemma with_service_enter_fails {A} (fuel : nat) (uri : string)
    (cors : option string) (ping_timeout stop_timeout : option Z)
    (block : nat -> M A) (w w' : World) (e : exn) :
  service_enter fuel uri cors ping_timeout stop_timeout w = (Raise e, w') ->
  with_service fuel uri cors ping_timeout stop_timeout block w = (Raise e, w').
Proof. intros E. unfold with_service, bind. now rewrite E. Qed.



(** C10: when the readiness wait of a session raises anything but
    [ServiceTimeout] or [ServiceTerminated], the exception leaves the
    session with the world as the wait left it: [stop_service] is not
    called, no [terminate] is added to the trace, and the child is as the
    launcher made it, neither signalled nor reaped. *)
Theorem other_failure_skips_stop (fuel : nat) (uri : string)
    (cors : option string) (ping_timeout stop_timeout : option Z)
    (w w0 w1 : World) (proc : nat) (e : exn) :
  start_service (Some uri) (Some 0) cors w = (Ok proc, w0) ->
  wait_for_service fuel uri proc ping_timeout default_check_interval w0
    = (Raise e, w1) ->
  isinstance_ServiceTimeout_or_Terminated e = false ->
  service_enter fuel uri cors ping_timeout stop_timeout w = (Raise e, w1)
  /\ terminations proc w1 = terminations proc w
  /\ procs w1 = procs w0
  /\ (forall (A : Type) (block : nat -> M A),
        with_service fuel uri cors ping_timeout stop_timeout block w
        = (Raise e, w1)).
Proof.
  intros Hs Hw Hcls.
  assert (Er : service_enter fuel uri cors ping_timeout stop_timeout w = (Raise e, w1)).
  { rewrite (service_enter_on_failure _ _ _ _ stop_timeout _ _ _ _ _ Hs Hw).
    now rewrite Hcls. }
  destruct (start_service_launches _ _ _ _ _ _ Hs) as (_ & _ & T0).
  destruct (wait_for_service_quiet fuel uri proc ping_timeout
              default_check_interval w0) as (P1 & T1).
  rewrite Hw in P1, T1. simpl in P1, T1.
  split; [exact Er|]. split; [now rewrite T1, T0|]. split; [exact P1|].
  intros A block. now apply with_service_enter_fails.
Qed.

Lemma other_failure_skips_stop_witness :
  let w := Scenario.boot Scenario.broken_endpoint in
  let r := service_enter 5 "http://x" None (Some 2000) (Some 5000) w in
  fst r = Raise (OtherException "JSONDecodeError")
  /\ terminations 0 (snd r) = 0%nat
  /\ exit_status (clock (snd r)) (procs (snd r) 0%nat) = None.
Proof.
  pose (w := Scenario.boot Scenario.broken_endpoint).
  pose (w0 := snd (start_service (Some "http://x"%string) (Some 0) None w)).
  pose (w1 := snd (wait_for_service 5 "http://x" 0 (Some 2000)
                     default_check_interval w0)).
  destruct (other_failure_skips_stop 5 "http://x" None (Some 2000) (Some 5000)
              w w0 w1 0 (OtherException "JSONDecodeError"))
    as (H1 & H2 & _).
  - vm_compute. reflexivity.
  - vm_compute. reflexivity.
  - reflexivity.
  - cbv zeta. fold w. rewrite H1. simpl fst. simpl snd.
    split; [reflexivity|]. split; [exact H2|]. vm_compute. reflexivity.
Defined.

(** A child that neither ends nor reacts to SIGTERM: without a stop timeout
    [stop_service] waits forever; with one it kills the child and returns
    the code of the kill. *)
Lemma deaf_child_needs_stop_timeout :
  let w := Scenario.having Scenario.stubborn Scenario.deaf in
  fst (stop_service 0 None w) = Hang
  /\ fst (stop_service 0 (Some 5000) w) = Ok (-9)
  /\ trace (snd (stop_service 0 (Some 5000) w))
     = [EvTerminate 0; EvWait 0 (Some 5000) None; EvKill 0; EvWait 0 None (Some (-9))].
Proof. vm_compute. repeat split. Qed.

(** What [with_service] does once the session is entered: after a block
    that returns, [stop_service] runs and the block's value comes back;
    after a block that raises, the exception leaves at once, the world
    being as the block left it. *)
Lemma with_service_block_returns {A} (fuel : nat) (uri : string)
    (cors : option string) (ping_timeout stop_timeout : option Z)
    (block : nat -> M A) (w w1 w2 : World) (proc : nat) (a : A) :
  service_enter fuel uri cors ping_timeout stop_timeout w = (Ok proc, w1) ->
  block proc w1 = (Ok a, w2) ->
  with_service fuel uri cors ping_timeout stop_timeout block w
  = (stop_service proc stop_timeout ;; ret a) w2.
Proof.
  intros He Hb. unfold with_service, bind at 1. rewrite He, Hb.
  unfold service_resume, bind.
  destruct (stop_service proc stop_timeout w2) as [[c|e| |] w3]; reflexivity.
Qed.

Lemma with_service_block_raises {A} (fuel : nat) (uri : string)
    (cors : option string) (ping_timeout stop_timeout : option Z)
    (block : nat -> M A) (w w1 w2 : World) (proc : nat) (e : exn) :
  service_enter fuel uri cors ping_timeout stop_timeout w = (Ok proc, w1) ->
  block proc w1 = (Raise e, w2) ->
  with_service fuel uri cors ping_timeout stop_timeout block w = (Raise e, w2).
Proof.
  intros He Hb. unfold with_service, bind at 1. rewrite He, Hb. reflexivity.
Qed.

(** C1 at a failing input: on a Linux host whose service answers the third
    ping, a block that raises leaves the session with its exception while
    [terminate] was never called; the child, spawned once, is still
    running.  The same session with a block that returns does stop the
    child. *)
Theorem raising_block_skips_stop :
  let w := Scenario.boot Scenario.linux in
  let boom : nat -> M unit := fun _ => raise (OtherException "boom") in
  let r := with_service 5 "http://x" None (Some 2000) (Some 5000) boom w in
  let r' := with_service 5 "http://x" None (Some 2000) (Some 5000) (fun _ => ret tt) w in
  fst r = Raise (OtherException "boom")
  /\ spawns (snd r) = 1%nat
  /\ terminations 0 (snd r) = 0%nat
  /\ exit_status (clock (snd r)) (procs (snd r) 0%nat) = None
  /\ fst r' = Ok tt
  /\ terminations 0 (snd r') = 1%nat
  /\ exit_status (clock (snd r')) (procs (snd r') 0%nat) = Some 0.
Proof. vm_compute. repeat split. Qed.

(** ** Relations every call keeps *)

Section Keeps.

Variable R : World -> World -> Prop.
Hypothesis R_refl : forall w, R w w.
Hypothesis R_trans : forall w1 w2 w3, R w1 w2 -> R w2 w3 -> R w1 w3.

Lemma keeps_ret {A} (a : A) : keeps R (ret a).
Proof. intros w. apply R_refl. Qed.

Lemma keeps_raise {A} (e : exn) : keeps R (@raise A e).
Proof. intros w. apply R_refl. Qed.

Lemma keeps_bind {A B} (m : M A) (k : A -> M B) :
  keeps R m -> (forall a, keeps R (k a)) -> keeps R (bind m k).
Proof.
  intros Hm Hk w. unfold bind. specialize (Hm w).
  destruct (m w) as [[a| | |] w1]; simpl in *; trivial.
  eapply R_trans; [exact Hm | apply Hk].
Qed.

Lemma keeps_try_except {A} (m : M A) (h : exn -> M A) :
  keeps R m -> (forall e, keeps R (h e)) -> keeps R (try_except m h).
Proof.
  intros Hm Hh w. unfold try_except. specialize (Hm w).
  destruct (m w) as [[a| e | |] w1]; simpl in *; trivial.
  eapply R_trans; [exact Hm | apply Hh].
Qed.

Lemma keeps_finally {A} (m : M A) (release : M unit) :
  keeps R m -> keeps R release -> keeps R (finally m release).
Proof.
  intros Hm Hr w. unfold finally. specialize (Hm w).
  destruct (m w) as [[a| e | |] w1]; simpl in *; trivial;
    (eapply R_trans; [exact Hm|]);
    apply keeps_bind; trivial; intros _;
    first [apply keeps_ret | apply keeps_raise].
Qed.

Section Wait.

Variable proc : nat.
Hypothesis R_monotonic : keeps R time_monotonic.
Hypothesis R_sleep : forall secs, keeps R (time_sleep secs).
Hypothesis R_open : forall uri, keeps R (client_open uri).
Hypothesis R_close : keeps R client_close.
Hypothesis R_ping : keeps R client_ping.
Hypothesis R_poll : keeps R (popen_poll proc).

Lemma keeps_wait_iteration (start : Z) (timeout : option Z)
    (check_interval : Z) :
  keeps R (wait_iteration start proc timeout check_interval).
Proof.
  unfold wait_iteration, deadline_passed.
  apply keeps_bind.
  - destruct (truthy timeout); [apply keeps_bind; trivial|];
      intros; apply keeps_ret.
  - intros [|]; [apply keeps_raise|].
    apply keeps_bind; [apply R_poll|].
    intros [code|]; [apply keeps_raise|].
    apply keeps_bind.
    + apply keeps_try_except; [exact R_ping|].
      intros e. destruct (isinstance_APIError e);
        [apply keeps_ret | apply keeps_raise].
    + intros [|]; [apply keeps_ret|].
      apply keeps_bind; [apply R_sleep | intros; apply keeps_ret].
Qed.

Lemma keeps_wait_loop (fuel : nat) (start : Z)
    (timeout : option Z) (check_interval : Z) :
  keeps R (wait_loop fuel start proc timeout check_interval).
Proof.
  induction fuel as [|fuel IH]; simpl.
  - intros w. apply R_refl.
  - apply keeps_bind; [apply keeps_wait_iteration|].
    intros [|]; [exact IH | apply keeps_ret].
Qed.

Lemma keeps_wait_for_service (fuel : nat) (uri : string)
    (timeout : option Z) (check_interval : Z) :
  keeps R (wait_for_service fuel uri proc timeout check_interval).
Proof.
  unfold wait_for_service.
  apply keeps_bind; [exact R_monotonic|]. intros start.
  apply keeps_bind; [apply R_open|]. intros _.
  apply keeps_finally; [apply keeps_wait_loop | exact R_close].
Qed.

End Wait.

Section Stop.

Variable proc : nat.
Hypothesis R_terminate : keeps R (popen_terminate proc).
Hypothesis R_kill : keeps R (popen_kill proc).
Hypothesis R_wait : forall timeout, keeps R (popen_wait proc timeout).

Lemma keeps_stop_service (timeout : option Z) :
  keeps R (stop_service proc timeout).
Proof.
  unfold stop_service.
  apply keeps_bind; [exact R_terminate|]. intros _.
  apply keeps_try_except; [apply R_wait|].
  intros e. destruct (isinstance_TimeoutExpired e); [|apply keeps_raise].
  apply keeps_bind; [exact R_kill | intros _; apply R_wait].
Qed.

End Stop.

End Keeps.

(** ** Time, host and trace through the calls *)

Lemma later_refl (w : World) : later w w.
Proof.
  unfold later. repeat split; try lia.
  exists []. split; [now rewrite app_nil_r | constructor].
Qed.

Lemma later_trans (w1 w2 w3 : World) : later w1 w2 -> later w2 w3 -> later w1 w3.
Proof.
  intros (H1 & C1 & N1 & P1 & evs1 & T1 & F1) (H2 & C2 & N2 & P2 & evs2 & T2 & F2).
  unfold later. repeat split; try congruence; try lia.
  exists (evs1 ++ evs2). split.
  - now rewrite T2, T1, app_assoc.
  - now apply Forall_app.
Qed.

Lemma later_step (w w' : World) (ev : Event) :
  host w' = host w ->
  clock w <= clock w' ->
  next_pid w' = next_pid w ->
  (pings w <= pings w')%nat ->
  trace w' = trace w ++ [ev] ->
  is_spawn ev = false ->
  later w w'.
Proof.
  intros H C N P T S. unfold later. repeat split; trivial.
  exists [ev]. split; [exact T|]. now constructor.
Qed.

Lemma later_time_monotonic : keeps later time_monotonic.
Proof.
  intros w. pose proof (reading_ge_clock w).
  now apply later_step with (ev := EvMonotonic (reading w)).
Qed.

Lemma later_time_sleep (secs : Z) : keeps later (time_sleep secs).
Proof.
  intros w. pose proof (reading_ge_clock w). unfold time_sleep.
  destruct (Z.ltb_spec secs 0);
    apply later_step with (ev := EvSleep secs); simpl; trivial; lia.
Qed.

Lemma later_client_open (uri : string) : keeps later (client_open uri).
Proof.
  intros w. pose proof (reading_ge_clock w).
  now apply later_step with (ev := EvClientOpen uri).
Qed.

Lemma later_client_close : keeps later client_close.
Proof.
  intros w. pose proof (reading_ge_clock w).
  now apply later_step with (ev := EvClientClose).
Qed.

Lemma later_client_ping : keeps later client_ping.
Proof.
  intros w. pose proof (reading_ge_clock w). unfold client_ping.
  destruct (ping_script (host w) (pings w)) as [ok|e] eqn:E;
    apply later_step with (ev := EvPing (ping_script (host w) (pings w)));
    rewrite ?E; simpl; trivial; lia.
Qed.

Lemma later_popen_poll (pid : nat) : keeps later (popen_poll pid).
Proof.
  intros w. pose proof (reading_ge_clock w).
  now apply later_step
    with (ev := EvPoll pid (exit_status (reading w) (procs w pid))).
Qed.

Lemma later_popen_terminate (pid : nat) : keeps later (popen_terminate pid).
Proof.
  intros w. pose proof (reading_ge_clock w).
  now apply later_step with (ev := EvTerminate pid).
Qed.

Lemma later_popen_kill (pid : nat) : keeps later (popen_kill pid).
Proof.
  intros w. pose proof (reading_ge_clock w).
  now apply later_step with (ev := EvKill pid).
Qed.

Lemma later_popen_wait (pid : nat) (timeout : option Z) :
  keeps later (popen_wait pid timeout).
Proof.
  intros w. pose proof (reading_ge_clock w) as Hr. unfold popen_wait. simpl.
  destruct (exit_plan (procs w pid)) as [[te c]|], timeout as [limit|].
  - destruct (te <=? reading w + Z.max 0 limit).
    + apply later_step with (ev := EvWait pid (Some limit) (Some c));
        simpl; trivial; lia.
    + apply later_step with (ev := EvWait pid (Some limit) None);
        simpl; trivial; lia.
  - apply later_step with (ev := EvWait pid None (Some c)); simpl; trivial; lia.
  - apply later_step with (ev := EvWait pid (Some limit) None);
      simpl; trivial; lia.
  - simpl. unfold later. simpl. repeat split; try lia.
    exists []. split; [now rewrite app_nil_r | constructor].
Qed.

Lemma later_wait_iteration (start : Z) (proc : nat) (timeout : option Z)
    (check_interval : Z) :
  keeps later (wait_iteration start proc timeout check_interval).
Proof.
  apply keeps_wait_iteration;
    first [ exact later_refl | exact later_trans | apply later_time_monotonic
          | apply later_time_sleep | apply later_client_open
          | apply later_client_close | apply later_client_ping
          | apply later_popen_poll | apply later_popen_terminate
          | apply later_popen_kill | apply later_popen_wait ].
Qed.

Lemma later_wait_loop (fuel : nat) (start : Z) (proc : nat)
    (timeout : option Z) (check_interval : Z) :
  keeps later (wait_loop fuel start proc timeout check_interval).
Proof.
  apply keeps_wait_loop;
    first [ exact later_refl | exact later_trans | apply later_time_monotonic
          | apply later_time_sleep | apply later_client_open
          | apply later_client_close | apply later_client_ping
          | apply later_popen_poll | apply later_popen_terminate
          | apply later_popen_kill | apply later_popen_wait ].
Qed.

Lemma later_wait_for_service (fuel : nat) (uri : string) (proc : nat)
    (timeout : option Z) (check_interval : Z) :
  keeps later (wait_for_service fuel uri proc timeout check_interval).
Proof.
  apply keeps_wait_for_service;
    first [ exact later_refl | exact later_trans | apply later_time_monotonic
          | apply later_time_sleep | apply later_client_open
          | apply later_client_close | apply later_client_ping
          | apply later_popen_poll | apply later_popen_terminate
          | apply later_popen_kill | apply later_popen_wait ].
Qed.

Lemma later_stop_service (proc : nat) (timeout : option Z) :
  keeps later (stop_service proc timeout).
Proof.
  apply keeps_stop_service;
    first [ exact later_refl | exact later_trans | apply later_time_monotonic
          | apply later_time_sleep | apply later_client_open
          | apply later_client_close | apply later_client_ping
          | apply later_popen_poll | apply later_popen_terminate
          | apply later_popen_kill | apply later_popen_wait ].
Qed.

Lemma others_same_refl (proc : nat) (w : World) : others_same proc w w.
Proof. intros q _. reflexivity. Qed.

Lemma others_same_trans (proc : nat) (w1 w2 w3 : World) :
  others_same proc w1 w2 -> others_same proc w2 w3 -> others_same proc w1 w3.
Proof. intros H1 H2 q Hq. now rewrite H2, H1. Qed.

Lemma others_same_stop_service (proc : nat) (timeout : option Z) :
  keeps (others_same proc) (stop_service proc timeout).
Proof.
  apply keeps_stop_service.
  - apply others_same_refl.
  - apply others_same_trans.
  - intros w q Hq. simpl. apply Nat.eqb_neq in Hq. now rewrite Hq.
  - intros w q Hq. simpl. apply Nat.eqb_neq in Hq. now rewrite Hq.
  - intros t w q Hq. destruct (popen_wait_cases proc t w); simpl; congruence.
Qed.

(** ** One turn of the loop, case by case *)

Lemma polled_facts (proc : nat) (timeout : option Z) (w : World) :
  host (polled proc timeout w) = host w
  /\ pings (polled proc timeout w) = pings w
  /\ procs (polled proc timeout w) = procs w
  /\ clock w <= clock (polled proc timeout w)
  /\ trace (polled proc timeout w)
     = trace (checked timeout w)
       ++ [EvPoll proc (exit_status (clock (polled proc timeout w)) (procs w proc))].
Proof.
  destruct (checked_facts timeout w) as (Hc & Hp & Hn & Hh).
  pose proof (reading_ge_clock (checked timeout w)).
  unfold polled. simpl. rewrite Hp. unfold reading in *.
  repeat split; try assumption; try reflexivity; lia.
Qed.

Lemma pinged_facts (proc : nat) (timeout : option Z) (w : World) :
  host (pinged proc timeout w) = host w
  /\ pings (pinged proc timeout w) = S (pings w)
  /\ procs (pinged proc timeout w) = procs w
  /\ clock w <= clock (pinged proc timeout w)
  /\ trace (pinged proc timeout w)
     = trace (polled proc timeout w) ++ [EvPing (ping_script (host w) (pings w))].
Proof.
  destruct (polled_facts proc timeout w) as (Hh & Hn & Hp & Hc & _).
  pose proof (reading_ge_clock (polled proc timeout w)).
  unfold pinged, client_ping. rewrite Hh, Hn.
  destruct (ping_script (host w) (pings w));
    cbn [fst snd host pings procs clock trace log set_clock elapse];
    repeat split; try assumption; try reflexivity; lia.
Qed.

Lemma rested_facts (proc : nat) (timeout : option Z) (check_interval : Z)
    (w : World) :
  0 <= check_interval ->
  host (rested proc timeout check_interval w) = host w
  /\ pings (rested proc timeout check_interval w) = S (pings w)
  /\ procs (rested proc timeout check_interval w) = procs w
  /\ clock w + check_interval <= clock (rested proc timeout check_interval w)
  /\ clock (rested proc timeout check_interval w)
     = reading (pinged proc timeout w) + check_interval
  /\ trace (rested proc timeout check_interval w)
     = trace (pinged proc timeout w) ++ [EvSleep check_interval].
Proof.
  intros Hi.
  destruct (pinged_facts proc timeout w) as (Hh & Hn & Hp & Hc & _).
  pose proof (reading_ge_clock (pinged proc timeout w)).
  unfold rested, time_sleep.
  destruct (Z.ltb_spec check_interval 0); [lia|].
  cbn [fst snd host pings procs clock trace log set_clock elapse].
  repeat split; try assumption; try reflexivity; lia.
Qed.

Lemma wait_iteration_cases (start : Z) (proc : nat) (timeout : option Z)
    (check_interval : Z) (w : World) :
  TurnCase start proc timeout check_interval w
    (wait_iteration start proc timeout check_interval w).
Proof.
  unfold wait_iteration, bind. rewrite deadline_passed_eq.
  destruct (fires start timeout w) eqn:F; [now apply TurnTimeout|].
  destruct (polled_facts proc timeout w) as (Hh & Hn & Hp & _ & _).
  destruct (checked_facts timeout w) as (_ & Hcp & _ & _).
  assert (Epoll : popen_poll proc (checked timeout w)
                  = (Ok (exit_status (clock (polled proc timeout w)) (procs w proc)),
                     polled proc timeout w)).
  { unfold polled, popen_poll. simpl. now rewrite Hcp. }
  rewrite Epoll.
  destruct (exit_status (clock (polled proc timeout w)) (procs w proc)) as [c|] eqn:E;
    [now apply TurnTerminated|].
  unfold try_except.
  assert (Eping : client_ping (polled proc timeout w)
                  = (match ping_script (host w) (pings w) with
                     | Pong ok => Ok ok
                     | PingRaises e => Raise e
                     end, pinged proc timeout w)).
  { unfold pinged, client_ping. rewrite Hh, Hn.
    destruct (ping_script (host w) (pings w)); reflexivity. }
  rewrite Eping.
  assert (Esleep : forall (ok : soft (ping_script (host w) (pings w)) = true),
            TurnCase start proc timeout check_interval w
              (match time_sleep check_interval (pinged proc timeout w) with
               | (Ok _, w1) => ret Continue w1
               | (Raise e, w1) => (Raise e, w1)
               | (Hang, w1) => (Hang, w1)
               | (OutOfFuel, w1) => (OutOfFuel, w1)
               end)).
  { intros Hs.
    assert (Er : snd (time_sleep check_interval (pinged proc timeout w))
                 = rested proc timeout check_interval w) by reflexivity.
    revert Er. unfold time_sleep.
    destruct (Z.ltb_spec check_interval 0); simpl; intros ->.
    - now apply TurnSleepFails.
    - now apply TurnAgain. }
  destruct (ping_script (host w) (pings w)) as [[|]|e] eqn:Escript.
  - now apply TurnReady.
  - now apply Esleep.
  - destruct (isinstance_APIError e) eqn:Ecls.
    + apply Esleep. exact Ecls.
    + now apply TurnFatal with (e := e).
Qed.

(** ** The loop as a whole *)

Lemma wait_loop_S (fuel : nat) (start : Z) (proc : nat) (timeout : option Z)
    (check_interval : Z) (w : World) :
  wait_loop (S fuel) start proc timeout check_interval w
  = match wait_iteration start proc timeout check_interval w with
    | (Ok Break, w1) => (Ok tt, w1)
    | (Ok Continue, w1) => wait_loop fuel start proc timeout check_interval w1
    | (Raise e, w1) => (Raise e, w1)
    | (Hang, w1) => (Hang, w1)
    | (OutOfFuel, w1) => (OutOfFuel, w1)
    end.
Proof.
  simpl. unfold bind.
  destruct (wait_iteration start proc timeout check_interval w) as [[[|]| | |] w1];
    reflexivity.
Qed.

Lemma loop_calls_only_refl (proc : nat) (w : World) : loop_calls_only proc w w.
Proof.
  split; [reflexivity|]. exists []. split; [now rewrite app_nil_r | constructor].
Qed.

Lemma loop_calls_only_trans (proc : nat) (w1 w2 w3 : World) :
  loop_calls_only proc w1 w2 -> loop_calls_only proc w2 w3 ->
  loop_calls_only proc w1 w3.
Proof.
  intros (P1 & evs1 & T1 & F1) (P2 & evs2 & T2 & F2).
  split; [congruence|]. exists (evs1 ++ evs2). split.
  - now rewrite T2, T1, app_assoc.
  - now apply Forall_app.
Qed.

Lemma loop_calls_only_step (proc : nat) (w w' : World) (ev : Event) :
  procs w' = procs w ->
  trace w' = trace w ++ [ev] ->
  is_loop_call proc ev = true ->
  loop_calls_only proc w w'.
Proof.
  intros P T H. split; [exact P|]. exists [ev]. split; [exact T|].
  now constructor.
Qed.

Lemma loop_calls_only_wait_loop (fuel : nat) (start : Z) (proc : nat)
    (timeout : option Z) (check_interval : Z) :
  keeps (loop_calls_only proc)
    (wait_loop fuel start proc timeout check_interval).
Proof.
  apply keeps_wait_loop.
  - apply loop_calls_only_refl.
  - apply loop_calls_only_trans.
  - intros w. now apply loop_calls_only_step with (ev := EvMonotonic (reading w)).
  - intros secs w. unfold time_sleep.
    destruct (secs <? 0); now apply loop_calls_only_step with (ev := EvSleep secs).
  - intros w. unfold client_ping.
    destruct (ping_script (host w) (pings w)) as [ok|e] eqn:E;
      now apply loop_calls_only_step
        with (ev := EvPing (ping_script (host w) (pings w))); rewrite ?E.
  - intros w.
    apply loop_calls_only_step
      with (ev := EvPoll proc (exit_status (reading w) (procs w proc)));
      trivial.
    simpl. apply Nat.eqb_refl.
Qed.

(** A loop that ends does so in a last turn, which either finds the service
    ready or raises; up to that turn only time has passed. *)
Lemma wait_loop_last_turn (fuel : nat) (start : Z) (proc : nat)
    (timeout : option Z) (check_interval : Z) :
  forall (w w' : World) (o : Outcome unit),
    wait_loop fuel start proc timeout check_interval w = (o, w') ->
    o <> OutOfFuel ->
    exists wl,
      later w wl /\ procs wl = procs w
      /\ ((o = Ok tt
           /\ TurnCase start proc timeout check_interval wl (Ok Break, w'))
          \/ (exists e, o = Raise e
              /\ TurnCase start proc timeout check_interval wl (Raise e, w'))).
Proof.
  induction fuel as [|fuel IH]; intros w w' o E Ho.
  - simpl in E. injection E as <- <-. now elim Ho.
  - rewrite wait_loop_S in E.
    pose proof (wait_iteration_cases start proc timeout check_interval w) as Hc.
    pose proof (later_wait_iteration start proc timeout check_interval w) as Hl.
    pose proof (wait_iteration_quiet start proc timeout check_interval w) as [Hq _].
    destruct (wait_iteration start proc timeout check_interval w)
      as [[[|]|e| |] w1] eqn:Ei; simpl in Hl, Hq.
    + destruct (IH w1 w' o E Ho) as (wl & L & P & H).
      exists wl. split; [now apply later_trans with (w2 := w1)|].
      split; [congruence | exact H].
    + injection E as <- <-. exists w. split; [apply later_refl|].
      split; [reflexivity|]. now left.
    + injection E as <- <-. exists w. split; [apply later_refl|].
      split; [reflexivity|]. right. now exists e.
    + inversion Hc.
    + inversion Hc.
Qed.

Lemma checked_trace (timeout : option Z) (w : World) :
  exists pre, trace (checked timeout w) = trace w ++ pre
    /\ (truthy timeout = true -> clock (checked timeout w) = reading w).
Proof.
  unfold checked. destruct (truthy timeout).
  - exists [EvMonotonic (reading w)]. split; [reflexivity|]. reflexivity.
  - exists []. split; [now rewrite app_nil_r | discriminate].
Qed.

Lemma wait_for_service_outcome (fuel : nat) (uri : string) (proc : nat)
    (timeout : option Z) (check_interval : Z) (w : World) :
  let l := wait_loop fuel (reading w) proc timeout check_interval (opened uri w) in
  let r := wait_for_service fuel uri proc timeout check_interval w in
  fst r = fst l
  /\ snd r = if left_block (fst l) then log EvClientClose (elapse (snd l)) else snd l.
Proof.
  intros l r. subst l r. rewrite wait_for_service_unfold. unfold finally.
  destruct (wait_loop fuel (reading w) proc timeout check_interval (opened uri w))
    as [[[]|e| |] w1]; simpl; auto.
Qed.

Lemma wait_for_service_shape (fuel : nat) (uri : string) (proc : nat)
    (timeout : option Z) (check_interval : Z) (w : World) :
  let r := wait_for_service fuel uri proc timeout check_interval w in
  procs (snd r) = procs w
  /\ exists mid,
       Forall (fun ev => is_loop_call proc ev = true) mid
       /\ trace (snd r)
          = trace w ++ EvMonotonic (reading w) :: EvClientOpen uri :: mid
              ++ (if left_block (fst r) then [EvClientClose] else []).
Proof.
  intros r.
  destruct (wait_for_service_outcome fuel uri proc timeout check_interval w)
    as (Ho & Hw).
  fold r in Ho, Hw.
  destruct (loop_calls_only_wait_loop fuel (reading w) proc timeout
              check_interval (opened uri w)) as (P & mid & T & F).
  destruct (opened_facts uri w) as (To & _ & Po & _).
  rewrite Hw, Ho.
  destruct (left_block
              (fst (wait_loop fuel (reading w) proc timeout check_interval
                      (opened uri w)))); simpl.
  - split; [congruence|]. exists mid. split; [exact F|].
    rewrite T, To, <- !app_assoc. reflexivity.
  - split; [congruence|]. exists mid. split; [exact F|].
    rewrite T, To, <- !app_assoc, app_nil_r. reflexivity.
Qed.

(** The client opened at line 157 is closed on every way out of
    [wait_for_service]: whenever the call returns or raises (it never
    blocks), it has opened the client once, right after reading the clock,
    made only calls of its loop in between, and closed the client as its
    last call. *)
Theorem wait_closes_client (fuel : nat) (uri : string) (proc : nat)
    (timeout : option Z) (check_interval : Z) (w : World) :
  let r := wait_for_service fuel uri proc timeout check_interval w in
  fst r <> OutOfFuel ->
  (fst r = Ok tt \/ exists e, fst r = Raise e)
  /\ exists mid,
       Forall (fun ev => is_loop_call proc ev = true) mid
       /\ trace (snd r)
          = trace w ++ EvMonotonic (reading w) :: EvClientOpen uri :: mid
              ++ [EvClientClose].
Proof.
  intros r Hf.
  destruct (wait_for_service_shape fuel uri proc timeout check_interval w)
    as (_ & mid & F & T).
  fold r in T.
  destruct (wait_for_service_outcome fuel uri proc timeout check_interval w)
    as (Ho & _).
  fold r in Ho.
  destruct (wait_loop fuel (reading w) proc timeout check_interval (opened uri w))
    as [o wl] eqn:El.
  simpl in Ho.
  assert (Hne : o <> OutOfFuel) by congruence.
  destruct (wait_loop_last_turn _ _ _ _ _ _ _ _ El Hne)
    as (w1 & _ & _ & [(Eo & _)|(e & Eo & _)]).
  - assert (Er : fst r = Ok tt) by congruence.
    split; [now left|]. exists mid. split; [exact F|].
    rewrite T, Er. reflexivity.
  - assert (Er : fst r = Raise e) by congruence.
    split; [right; now exists e|]. exists mid. split; [exact F|].
    rewrite T, Er. reflexivity.
Qed.

Lemma wait_closes_client_witness :
  let w := Scenario.having Scenario.crashing (mkProc (Some (60, 3)) None) in
  let r := wait_for_service 5 "http://x" 0 None 100 w in
  fst r = Raise (ServiceTerminated 3)
  /\ exists mid, trace (snd r)
       = trace w ++ EvMonotonic (reading w) :: EvClientOpen "http://x" :: mid
           ++ [EvClientClose].
Proof.
  pose (w := Scenario.having Scenario.crashing (mkProc (Some (60, 3)) None)).
  destruct (wait_closes_client 5 "http://x" 0 None 100 w)
    as (_ & mid & _ & T).
  - vm_compute. discriminate.
  - split; [vm_compute; reflexivity|]. exists mid. exact T.
Defined.

(** [wait_for_service] only watches: whatever it returns, it has changed no
    child, called [terminate] on none, and made no call but reading the
    clock, sleeping, opening and closing its client, pinging, and polling
    the child it was given. *)
Theorem wait_only_watches (fuel : nat) (uri : string) (proc : nat)
    (timeout : option Z) (check_interval : Z) (w : World) :
  let r := wait_for_service fuel uri proc timeout check_interval w in
  procs (snd r) = procs w
  /\ (forall pid, terminations pid (snd r) = terminations pid w)
  /\ exists evs, trace (snd r) = trace w ++ evs
                 /\ Forall (fun ev => is_probe proc ev = true) evs.
Proof.
  intros r.
  destruct (wait_for_service_shape fuel uri proc timeout check_interval w)
    as (P & mid & F & T).
  fold r in P, T.
  destruct (wait_for_service_quiet fuel uri proc timeout check_interval w)
    as (_ & Q).
  split; [exact P|]. split; [exact Q|].
  eexists. split; [exact T|].
  constructor; [reflexivity|]. constructor; [reflexivity|].
  apply Forall_app. split.
  - eapply Forall_impl; [|exact F]. intros ev H. unfold is_probe.
    destruct ev; trivial; discriminate.
  - destruct (left_block (fst r)); repeat constructor.
Qed.

(** [wait_for_service] returns only from a turn in which the exit check
    found the child alive and the ping answered [True]: the last three
    calls of a successful wait are that poll, that ping and the closing of
    the client. *)
Theorem ready_after_live_poll_and_pong (fuel : nat) (uri : string) (proc : nat)
    (timeout : option Z) (check_interval : Z) (w w' : World) :
  wait_for_service fuel uri proc timeout check_interval w = (Ok tt, w') ->
  exists mid,
    trace w'
    = trace w ++ EvMonotonic (reading w) :: EvClientOpen uri :: mid
        ++ [EvPoll proc None; EvPing (Pong true); EvClientClose].
Proof.
  intros E.
  destruct (wait_for_service_outcome fuel uri proc timeout check_interval w)
    as (Ho & Hw).
  rewrite E in Ho, Hw. simpl in Ho, Hw.
  destruct (wait_loop fuel (reading w) proc timeout check_interval (opened uri w))
    as [o w1] eqn:El.
  simpl in Ho, Hw. subst o. simpl in Hw.
  destruct (wait_loop_last_turn _ _ _ _ _ _ _ _ El ltac:(discriminate))
    as (wl & (_ & _ & _ & _ & evs & Tl & _) & _ & [(_ & Hc)|(e & He & _)]);
    [|discriminate].
  inversion Hc as [| |F Ex Ep Hw1| | |]. subst w1.
  destruct (pinged_facts proc timeout wl) as (_ & _ & _ & _ & Tp).
  destruct (polled_facts proc timeout wl) as (_ & _ & _ & _ & Tq).
  destruct (checked_trace timeout wl) as (pre & Tc & _).
  destruct (opened_facts uri w) as (To & _).
  rewrite Ep in Tp. rewrite Ex in Tq.
  exists (evs ++ pre). subst w'. simpl.
  rewrite Tp, Tq, Tc, Tl, To, <- !app_assoc. reflexivity.
Qed.

Lemma ready_after_live_poll_and_pong_witness :
  let w := Scenario.having Scenario.linux Scenario.running in
  exists mid,
    trace (snd (wait_for_service 5 "http://x" 0 (Some 2000) 100 w))
    = trace w ++ EvMonotonic (reading w) :: EvClientOpen "http://x" :: mid
        ++ [EvPoll 0 None; EvPing (Pong true); EvClientClose].
Proof.
  apply (ready_after_live_poll_and_pong 5 "http://x" 0 (Some 2000) 100
           (Scenario.having Scenario.linux Scenario.running)).
  vm_compute. reflexivity.
Defined.

(** Where an exception of [wait_for_service] comes from, with the
    collaborators as modelled above: the deadline check, the exit check,
    the sleep, or a ping. *)
Lemma wait_raise_cases (fuel : nat) (uri : string) (proc : nat)
    (timeout : option Z) (check_interval : Z) (w w' : World) (e : exn) :
  wait_for_service fuel uri proc timeout check_interval w = (Raise e, w') ->
  (e = ServiceTimeout (timeout_value timeout)
   /\ truthy timeout = true
   /\ timeout_value timeout < clock w' - reading w)
  \/ (exists c, e = ServiceTerminated c
                /\ exit_status (clock w') (procs w' proc) = Some c)
  \/ (e = ValueError "sleep length must be non-negative" /\ check_interval < 0)
  \/ (isinstance_APIError e = false
      /\ exists n, ping_script (host w) n = PingRaises e).
Proof.
  intros E.
  destruct (wait_for_service_outcome fuel uri proc timeout check_interval w)
    as (Ho & Hw).
  rewrite E in Ho, Hw. simpl in Ho, Hw.
  destruct (wait_loop fuel (reading w) proc timeout check_interval (opened uri w))
    as [o w1] eqn:El.
  simpl in Ho, Hw. subst o. simpl in Hw.
  destruct (wait_loop_last_turn _ _ _ _ _ _ _ _ El ltac:(discriminate))
    as (wl & (Hh & _) & Hp & [(He & _)|(e' & He & Hc)]); [discriminate|].
  injection He as <-.
  assert (Hhost : host wl = host w) by (rewrite Hh; reflexivity).
  assert (Hclk : clock w1 <= clock w').
  { subst w'. simpl. apply reading_ge_clock. }
  assert (Hprocs : procs w' = procs w1) by (subst w'; reflexivity).
  inversion Hc as [F Hw1|c F Ex Hw1| |e0 F Ex Ep Hcls Hw1|F Ex Hs Hneg Hw1|]; subst.
  - left. unfold fires in F. apply andb_prop in F as [Ft Fl].
    apply Z.ltb_lt in Fl.
    destruct (checked_trace timeout wl) as (_ & _ & Hck).
    specialize (Hck Ft). split; [reflexivity|]. split; [exact Ft|].
    simpl in Hclk |- *. unfold reading in *. simpl in *. lia.
  - right; left. exists c. split; [reflexivity|].
    destruct (polled_facts proc timeout wl) as (_ & _ & Pq & _).
    rewrite Hprocs, Pq.
    apply exit_status_later with (t := clock (polled proc timeout wl)); trivial.
  - right; right; right. split; [exact Hcls|].
    exists (pings wl). now rewrite <- Hhost.
  - right; right; left. split; [reflexivity | exact Hneg].
Qed.

(** The two exceptions that [wait_for_service] raises itself are never
    raised without cause.  Unless a ping raised it, a [ServiceTimeout] that
    leaves the call carries the call's own timeout, which is non-zero and
    which the time since the first clock reading really exceeds; and a
    [ServiceTerminated(code)] that leaves the call reports a child that has
    really exited, with that exit code. *)
Theorem service_errors_are_sound (fuel : nat) (uri : string) (proc : nat)
    (timeout : option Z) (check_interval : Z) (w w' : World) (e : exn) :
  wait_for_service fuel uri proc timeout check_interval w = (Raise e, w') ->
  (forall n, ping_script (host w) n <> PingRaises e) ->
  (forall t, e = ServiceTimeout t ->
     timeout = Some t /\ t <> 0 /\ t < clock w' - reading w)
  /\ (forall c, e = ServiceTerminated c ->
        exit_status (clock w') (procs w' proc) = Some c).
Proof.
  intros E Hping.
  destruct (wait_raise_cases fuel uri proc timeout check_interval w w' e E)
    as [(He & Ht & Hl)|[(c & He & Hx)|[(He & _)|(_ & n & Hn)]]].
  - split.
    + intros t ->. injection He as ->.
      destruct timeout as [t|]; [|discriminate].
      simpl in Ht, Hl |- *. split; [reflexivity|]. split; [|exact Hl].
      intros ->. discriminate.
    + intros c ->. discriminate.
  - split.
    + intros t ->. discriminate.
    + intros c' ->. injection He as ->. exact Hx.
  - split; intros x ->; discriminate.
  - now elim (Hping n).
Qed.

Lemma service_errors_are_sound_witness :
  let w := Scenario.having Scenario.crashing (mkProc (Some (60, 3)) None) in
  let w' := snd (wait_for_service 5 "http://x" 0 None 100 w) in
  exit_status (clock w') (procs w' 0%nat) = Some 3.
Proof.
  pose (w := Scenario.having Scenario.crashing (mkProc (Some (60, 3)) None)).
  destruct (service_errors_are_sound 5 "http://x" 0 None 100 w
              (snd (wait_for_service 5 "http://x" 0 None 100 w))
              (ServiceTerminated 3)) as (_ & H).
  - vm_compute. reflexivity.
  - intros n. simpl. discriminate.
  - exact (H 3 eq_refl).
Defined.

(** ** How long the wait lasts *)

Lemma fires_when_late (start : Z) (timeout : option Z) (w : World) :
  truthy timeout = true ->
  timeout_value timeout < clock w - start ->
  fires start timeout w = true.
Proof.
  intros Ht Hl. unfold fires. rewrite Ht. simpl.
  apply Z.ltb_lt. pose proof (reading_ge_clock w). lia.
Qed.

Lemma wait_loop_bounded (start : Z) (proc : nat) (timeout : option Z)
    (check_interval : Z) :
  truthy timeout = true ->
  0 < check_interval ->
  forall (n fuel : nat) (w : World),
    timeout_value timeout < clock w - start + Z.of_nat n * check_interval ->
    (n < fuel)%nat ->
    fst (wait_loop fuel start proc timeout check_interval w) <> OutOfFuel.
Proof.
  intros Ht Hi. induction n as [|n IH]; intros fuel w Hl Hf;
    (destruct fuel as [|fuel]; [lia|]); rewrite wait_loop_S;
    pose proof (wait_iteration_cases start proc timeout check_interval w) as Hc;
    destruct (wait_iteration start proc timeout check_interval w)
      as [[[|]|e| |] w1] eqn:Ei; try discriminate; try (now inversion Hc).
  - assert (F : fires start timeout w = true)
      by (apply fires_when_late; [exact Ht | lia]).
    inversion Hc; congruence.
  - inversion Hc as [| | | | |F Ex Hs H0 Hw1]. subst w1.
    destruct (rested_facts proc timeout check_interval w H0)
      as (_ & _ & _ & Hck & _).
    apply IH; lia.
Qed.

(** With a true timeout and a positive interval the wait is bounded: it
    returns or raises within [timeout / interval + 2] turns of its loop,
    whatever the child and the endpoint do. *)
Theorem wait_with_timeout_ends (fuel : nat) (uri : string) (proc : nat)
    (t check_interval : Z) (w : World) :
  t <> 0 ->
  0 < check_interval ->
  (Z.to_nat (t / check_interval) + 1 < fuel)%nat ->
  let r := wait_for_service fuel uri proc (Some t) check_interval w in
  fst r = Ok tt \/ exists e, fst r = Raise e.
Proof.
  intros Ht Hi Hf r.
  destruct (wait_for_service_outcome fuel uri proc (Some t) check_interval w)
    as (Ho & _).
  fold r in Ho.
  assert (Htr : truthy (Some t) = true)
    by (simpl; apply Z.eqb_neq in Ht; now rewrite Ht).
  assert (Hck : reading w <= clock (opened uri w)).
  { unfold opened. simpl.
    pose proof (reading_ge_clock (log (EvMonotonic (reading w)) (elapse w))) as H.
    exact H. }
  assert (Hne : fst (wait_loop fuel (reading w) proc (Some t) check_interval
                       (opened uri w)) <> OutOfFuel).
  { apply (wait_loop_bounded (reading w) proc (Some t) check_interval Htr Hi
             (Z.to_nat (t / check_interval) + 1)); [|exact Hf].
    simpl timeout_value.
    pose proof (Z.mul_succ_div_gt t check_interval Hi) as Hd.
    destruct (Z.le_gt_cases 0 (t / check_interval)) as [Hq|Hq].
    - rewrite Nat2Z.inj_add, Z2Nat.id by exact Hq. lia.
    - rewrite Nat2Z.inj_add.
      assert (Z.of_nat (Z.to_nat (t / check_interval)) = 0) as -> by lia.
      nia. }
  destruct (wait_loop fuel (reading w) proc (Some t) check_interval (opened uri w))
    as [o w1] eqn:El.
  simpl in Ho, Hne.
  destruct (wait_loop_last_turn _ _ _ _ _ _ _ _ El Hne)
    as (wl & _ & _ & [(Eo & _)|(e & Eo & _)]).
  - left. congruence.
  - right. exists e. congruence.
Qed.

Lemma wait_with_timeout_ends_witness :
  let w := Scenario.having Scenario.stubborn Scenario.deaf in
  let r := wait_for_service 7 "http://x" 0 (Some 450) 100 w in
  fst r = Ok tt \/ exists e, fst r = Raise e.
Proof.
  apply (wait_with_timeout_ends 7 "http://x" 0 450 100
           (Scenario.having Scenario.stubborn Scenario.deaf)).
  - discriminate.
  - reflexivity.
  - vm_compute. lia.
Defined.

Lemma wait_loop_spins (start : Z) (proc : nat) (timeout : option Z)
    (check_interval : Z) :
  truthy timeout = false ->
  0 <= check_interval ->
  forall (fuel : nat) (w : World),
    exit_plan (procs w proc) = None ->
    (forall n, soft (ping_script (host w) n) = true) ->
    fst (wait_loop fuel start proc timeout check_interval w) = OutOfFuel.
Proof.
  intros Ht Hi. induction fuel as [|fuel IH]; intros w Hp Hs; [reflexivity|].
  rewrite wait_loop_S.
  pose proof (wait_iteration_cases start proc timeout check_interval w) as Hc.
  assert (Hx : forall t, exit_status t (procs w proc) = None)
    by (intros t; unfold exit_status; now rewrite Hp).
  pose proof (Hs (pings w)) as Hs0.
  inversion Hc as [F Hw1|c F Ex Hw1|F Ex Ep Hw1|e F Ex Ep Hcls Hw1
                  |F Ex Hsf Hneg Hw1|F Ex Hsf H0 Hw1].
  - unfold fires in F. rewrite Ht in F. discriminate.
  - rewrite Hx in Ex. discriminate.
  - rewrite Ep in Hs0. discriminate.
  - rewrite Ep in Hs0. simpl in Hs0. congruence.
  - lia.
  - destruct (rested_facts proc timeout check_interval w H0)
      as (Hh & _ & Hpr & _).
    apply IH.
    + now rewrite Hpr.
    + intros n. rewrite Hh. apply Hs.
Qed.

(** Without a true timeout ([None], or [0]) nothing bounds the wait: as long
    as the child does not exit and no ping answers [True] or raises
    anything but [APIError], the loop takes turn after turn and the call
    never returns. *)
Theorem wait_without_timeout_spins (fuel : nat) (uri : string) (proc : nat)
    (timeout : option Z) (check_interval : Z) (w : World) :
  timeout = None \/ timeout = Some 0 ->
  0 <= check_interval ->
  exit_plan (procs w proc) = None ->
  (forall n, soft (ping_script (host w) n) = true) ->
  fst (wait_for_service fuel uri proc timeout check_interval w) = OutOfFuel.
Proof.
  intros Ht Hi Hp Hs.
  destruct (wait_for_service_outcome fuel uri proc timeout check_interval w)
    as (Ho & _).
  rewrite Ho.
  apply wait_loop_spins; trivial.
  destruct Ht as [-> | ->]; reflexivity.
Qed.

Lemma wait_without_timeout_spins_witness :
  fst (wait_for_service 50 "http://x" 0 (Some 0) 100
         (Scenario.having Scenario.stubborn Scenario.deaf)) = OutOfFuel.
Proof.
  apply (wait_without_timeout_spins 50 "http://x" 0 (Some 0) 100
           (Scenario.having Scenario.stubborn Scenario.deaf)).
  - now right.
  - discriminate.
  - reflexivity.
  - intros n. reflexivity.
Defined.

(** ** When the service comes up *)

Lemma slept_in_app (a b : list Event) :
  slept_in (a ++ b) = slept_in a + slept_in b.
Proof.
  induction a as [|ev a IH]; [reflexivity|].
  destruct ev; simpl; rewrite ?IH; lia.
Qed.

Lemma checked_slept (timeout : option Z) (w : World) :
  slept (checked timeout w) = slept w.
Proof.
  unfold slept, checked. destruct (truthy timeout); [|reflexivity].
  simpl. rewrite slept_in_app. simpl. lia.
Qed.

Lemma pinged_slept (proc : nat) (timeout : option Z) (w : World) :
  slept (pinged proc timeout w) = slept w.
Proof.
  destruct (pinged_facts proc timeout w) as (_ & _ & _ & _ & Tp).
  destruct (polled_facts proc timeout w) as (_ & _ & _ & _ & Tq).
  unfold slept. rewrite Tp, Tq, !slept_in_app. simpl.
  fold (slept (checked timeout w)). rewrite checked_slept. unfold slept. lia.
Qed.

Lemma rested_slept (proc : nat) (timeout : option Z) (check_interval : Z)
    (w : World) :
  0 <= check_interval ->
  slept (rested proc timeout check_interval w) = slept w + check_interval.
Proof.
  intros Hi.
  destruct (rested_facts proc timeout check_interval w Hi) as (_ & _ & _ & _ & _ & Tr).
  unfold slept. rewrite Tr, slept_in_app. simpl.
  destruct (Z.ltb_spec check_interval 0); [lia|].
  fold (slept (pinged proc timeout w)). rewrite pinged_slept. unfold slept. lia.
Qed.

Lemma reading_upper (L : Z) (w : World) :
  (forall k, Z.of_N (latency (host w) k) <= L) -> reading w <= clock w + L.
Proof. intros HL. unfold reading. specialize (HL (List.length (trace w))). lia. Qed.

Lemma pinged_clock_upper (L : Z) (proc : nat) (timeout : option Z) (w : World) :
  (forall k, Z.of_N (latency (host w) k) <= L) ->
  reading (pinged proc timeout w) <= clock w + 4 * L.
Proof.
  intros HL.
  destruct (checked_facts timeout w) as (_ & _ & _ & Hhc).
  destruct (polled_facts proc timeout w) as (Hhq & _).
  destruct (pinged_facts proc timeout w) as (Hhp & _).
  assert (H1 : clock (checked timeout w) <= clock w + L).
  { unfold checked. destruct (truthy timeout); simpl.
    - now apply reading_upper.
    - specialize (HL 0%nat). lia. }
  assert (H2 : clock (polled proc timeout w) <= clock (checked timeout w) + L).
  { unfold polled. simpl. apply reading_upper. now rewrite Hhc. }
  assert (H3 : clock (pinged proc timeout w) <= clock (polled proc timeout w) + L).
  { assert (clock (pinged proc timeout w) = reading (polled proc timeout w)) as ->.
    { unfold pinged, client_ping.
      destruct (ping_script (host (polled proc timeout w))
                  (pings (polled proc timeout w))); reflexivity. }
    apply reading_upper. now rewrite Hhq. }
  assert (H4 : reading (pinged proc timeout w) <= clock (pinged proc timeout w) + L).
  { apply reading_upper. now rewrite Hhp. }
  lia.
Qed.

Lemma wait_loop_ready_at (L start : Z) (proc : nat) (timeout : option Z)
    (check_interval : Z) :
  0 <= check_interval ->
  forall (n extra : nat) (w : World),
    exit_plan (procs w proc) = None ->
    (forall k, Z.of_N (latency (host w) k) <= L) ->
    (forall k, (k < n)%nat -> soft (ping_script (host w) (pings w + k)) = true) ->
    ping_script (host w) (pings w + n) = Pong true ->
    truthy timeout = false
    \/ clock w - start + L + Z.of_nat n * (4 * L + check_interval)
       <= timeout_value timeout ->
    exists w',
      wait_loop (S n + extra) start proc timeout check_interval w = (Ok tt, w')
      /\ pings w' = (pings w + S n)%nat
      /\ slept w' = slept w + Z.of_nat n * check_interval.
Proof.
  intros Hi. induction n as [|n IH]; intros extra w Hp HL Hsoft Hpong Ht.
  - rewrite Nat.add_0_r in Hpong.
    assert (Hx : forall t, exit_status t (procs w proc) = None)
      by (intros t; unfold exit_status; now rewrite Hp).
    assert (F : fires start timeout w = false).
    { unfold fires. destruct Ht as [->|Ht]; [reflexivity|].
      pose proof (reading_upper L w HL).
      destruct (truthy timeout); [|reflexivity]. simpl. apply Z.ltb_ge. lia. }
    change (S 0 + extra)%nat with (S extra). rewrite wait_loop_S.
    pose proof (wait_iteration_cases start proc timeout check_interval w) as Hc.
    inversion Hc as [F' Hw1|c F' Ex Hw1|F' Ex Ep Hw1|e F' Ex Ep Hcls Hw1
                    |F' Ex Hsf Hneg Hw1|F' Ex Hsf H0 Hw1];
      try congruence.
    + exists (pinged proc timeout w). split; [reflexivity|].
      destruct (pinged_facts proc timeout w) as (_ & Hn & _).
      split; [rewrite Hn; lia|]. rewrite pinged_slept. simpl. lia.
    + rewrite Hpong in Hsf. discriminate.
    + rewrite Hpong in Hsf. discriminate.
  - assert (Hx : forall t, exit_status t (procs w proc) = None)
      by (intros t; unfold exit_status; now rewrite Hp).
    assert (Hs0 : soft (ping_script (host w) (pings w)) = true).
    { specialize (Hsoft 0%nat). rewrite Nat.add_0_r in Hsoft. apply Hsoft. lia. }
    assert (F : fires start timeout w = false).
    { unfold fires. destruct Ht as [->|Ht]; [reflexivity|].
      pose proof (reading_upper L w HL).
      assert (0 <= L) by (specialize (HL 0%nat); lia).
      destruct (truthy timeout); [|reflexivity]. simpl. apply Z.ltb_ge. nia. }
    change (S (S n) + extra)%nat with (S (S n + extra)). rewrite wait_loop_S.
    pose proof (wait_iteration_cases start proc timeout check_interval w) as Hc.
    inversion Hc as [F' Hw1|c F' Ex Hw1|F' Ex Ep Hw1|e F' Ex Ep Hcls Hw1
                    |F' Ex Hsf Hneg Hw1|F' Ex Hsf H0 Hw1];
      try congruence.
    + rewrite Ep in Hs0. discriminate.
    + rewrite Ep in Hs0. simpl in Hs0. congruence.
    + lia.
    + destruct (rested_facts proc timeout check_interval w H0)
        as (Hh & Hn & Hpr & _ & Hck & _).
      pose proof (pinged_clock_upper L proc timeout w HL) as Hup.
      destruct (IH extra (rested proc timeout check_interval w))
        as (w' & E & Hpn & Hsl).
      * now rewrite Hpr.
      * intros k. rewrite Hh. apply HL.
      * intros k Hk. rewrite Hh, Hn.
        replace (S (pings w) + k)%nat with (pings w + S k)%nat by lia.
        apply Hsoft. lia.
      * rewrite Hh, Hn.
        replace (S (pings w) + n)%nat with (pings w + S n)%nat by lia.
        exact Hpong.
      * destruct Ht as [Ht|Ht]; [now left|]. right.
        rewrite Hck. rewrite Nat2Z.inj_succ in Ht. nia.
      * exists w'. split; [exact E|]. split; [rewrite Hpn, Hn; lia|].
        rewrite Hsl, rested_slept by exact Hi. rewrite Nat2Z.inj_succ. lia.
Qed.

(** When the child keeps running and the first [n] pings fail softly (they
    return [False] or raise [APIError]) while the next one answers [True],
    [wait_for_service] succeeds at that ping: it has pinged [n + 1] times
    and slept [n] times the interval, provided the timeout, if one is
    really set, leaves room for those [n] turns ([L] bounding the latency
    of a call). *)
Theorem ready_at_nth_ping (L : Z) (n extra : nat) (uri : string) (proc : nat)
    (timeout : option Z) (check_interval : Z) (w : World) :
  0 <= check_interval ->
  exit_plan (procs w proc) = None ->
  (forall k, Z.of_N (latency (host w) k) <= L) ->
  (forall k, (k < n)%nat -> soft (ping_script (host w) (pings w + k)) = true) ->
  ping_script (host w) (pings w + n) = Pong true ->
  truthy timeout = false
  \/ 2 * L + Z.of_nat n * (4 * L + check_interval) <= timeout_value timeout ->
  exists w',
    wait_for_service (S n + extra) uri proc timeout check_interval w = (Ok tt, w')
    /\ pings w' = (pings w + S n)%nat
    /\ slept w' = slept w + Z.of_nat n * check_interval.
Proof.
  intros Hi Hp HL Hsoft Hpong Ht.
  destruct (opened_facts uri w) as (To & _ & Po & Pn).
  assert (Hh : host (opened uri w) = host w) by reflexivity.
  assert (Hck : clock (opened uri w) - reading w <= L).
  { unfold opened. simpl.
    pose proof (reading_upper L (log (EvMonotonic (reading w)) (elapse w)) HL) as H.
    simpl in H. lia. }
  destruct (wait_loop_ready_at L (reading w) proc timeout check_interval Hi
              n extra (opened uri w)) as (w1 & E & Hn & Hs).
  - now rewrite Po.
  - intros k. rewrite Hh. apply HL.
  - intros k Hk. rewrite Hh, Pn. now apply Hsoft.
  - now rewrite Hh, Pn.
  - destruct Ht as [Ht|Ht]; [now left|]. right. lia.
  - exists (log EvClientClose (elapse w1)).
    rewrite wait_for_service_unfold. unfold finally. rewrite E.
    split; [reflexivity|]. split.
    + simpl. rewrite Hn, Pn. reflexivity.
    + unfold slept in *. simpl. rewrite slept_in_app, Hs, To, slept_in_app.
      simpl. lia.
Qed.

Lemma ready_at_nth_ping_witness :
  let w := Scenario.having Scenario.linux Scenario.running in
  exists w',
    wait_for_service 5 "http://x" 0 (Some 2000) 100 w = (Ok tt, w')
    /\ pings w' = 3%nat
    /\ slept w' = 200.
Proof.
  apply (ready_at_nth_ping 1 2 2 "http://x" 0 (Some 2000) 100
           (Scenario.having Scenario.linux Scenario.running)).
  - discriminate.
  - reflexivity.
  - intros k. simpl. discriminate.
  - intros [|[|k]] Hk; [reflexivity | reflexivity | lia].
  - reflexivity.
  - right. vm_compute. discriminate.
Defined.

(** ** More on shutdown *)

(** [stop_service] acts on its own child only: every other child is as it
    was, and no [terminate] is called on any other. *)
Theorem stop_spares_other_children (proc other : nat) (timeout : option Z)
    (w : World) :
  other <> proc ->
  procs (snd (stop_service proc timeout w)) other = procs w other
  /\ terminations other (snd (stop_service proc timeout w)) = terminations other w.
Proof.
  intros Hne. split.
  - now apply (others_same_stop_service proc timeout w).
  - assert (Hb : Nat.eqb proc other = false) by (apply Nat.eqb_neq; congruence).
    destruct (stop_service_cases proc timeout w)
      as [c w' Tr _ _|limit c w' _ Tr _|w' _ _ Tr]; simpl;
      rewrite (terminations_app other w w' _ Tr); simpl; rewrite Hb; simpl; lia.
Qed.

Lemma stop_spares_other_children_witness :
  let w := mkWorld Scenario.linux 10
             (fun q => if Nat.eqb q 0 then Scenario.running else Scenario.deaf)
             2 0 [] in
  procs (snd (stop_service 0 (Some 5000) w)) 1%nat = Scenario.deaf.
Proof.
  pose (w := mkWorld Scenario.linux 10
               (fun q => if Nat.eqb q 0 then Scenario.running else Scenario.deaf)
               2 0 []).
  destruct (stop_spares_other_children 0 1 (Some 5000) w) as (H & _).
  - discriminate.
  - exact H.
Defined.

Lemma popen_kill_then_wait_clock (proc : nat) (w : World) :
  clock (snd ((popen_kill proc ;; popen_wait proc None) w))
  = reading w + Z.of_N (latency (host w) (S (List.length (trace w)))).
Proof.
  destruct (deliver_sigkill_exits (reading w) (procs w proc))
    as (te & c & Ep & Hle).
  unfold bind, popen_kill, popen_wait.
  cbn [fst snd host pings procs clock trace next_pid log set_clock set_proc elapse].
  rewrite Nat.eqb_refl, Ep.
  cbn [fst snd host pings procs clock trace next_pid log set_clock set_proc elapse].
  unfold reading at 1 2.
  cbn [fst snd host pings procs clock trace next_pid log set_clock set_proc elapse].
  rewrite length_app. simpl List.length. rewrite Nat.add_1_r. lia.
Qed.

(** With a stop timeout, [stop_service] always returns, and it does so no
    later than that timeout after its start, plus the time its (at most
    four) calls take to get going: the wait after the kill does not add to
    it. *)
Theorem stop_service_time_bound (proc : nat) (limit : Z) (w : World) :
  let r := stop_service proc (Some limit) w in
  (exists c, fst r = Ok c)
  /\ clock (snd r)
     <= clock w + Z.max 0 limit + lat w 0 + lat w 1 + lat w 2 + lat w 3.
Proof.
  intros r. subst r. split.
  - destruct (stop_service_cases proc (Some limit) w)
      as [c w' _ _ _|l c w' _ _ _|w' Hn _ _]; [now exists c | now exists c
                                               | discriminate].
  - rewrite stop_service_unfold.
    set (w1 := snd (popen_terminate proc w)).
    assert (C1 : reading w1 = clock w + lat w 0 + lat w 1).
    { subst w1. unfold reading, lat. simpl.
      rewrite length_app, Nat.add_0_r. reflexivity. }
    assert (L1 : List.length (trace w1) = S (List.length (trace w))).
    { subst w1. simpl. rewrite length_app. simpl. lia. }
    assert (H1 : host w1 = host w) by reflexivity.
    pose proof (popen_wait_bounded proc limit w1) as Hb.
    pose proof (popen_wait_cases proc (Some limit) w1) as Hc.
    pose proof (later_popen_wait proc (Some limit) w1) as (H2 & _).
    unfold try_except.
    destruct (popen_wait proc (Some limit) w1) as [o w2] eqn:Ew.
    simpl in Hb, H2.
    assert (N0 : 0 <= lat w 2 /\ 0 <= lat w 3) by (unfold lat; lia).
    inversion Hc as [c w3 Tr Pr E|l w3 Et Tr Pr|w3 Et Tr Pr Ep]; subst.
    + simpl. lia.
    + change (isinstance_TimeoutExpired (TimeoutExpired l)) with true. cbv iota.
      rewrite popen_kill_then_wait_clock.
      assert (reading w2 = clock w2 + lat w 2) as ->.
      { unfold reading, lat. rewrite H2, Tr, length_app, L1. simpl.
        repeat f_equal. lia. }
      assert (Z.of_N (latency (host w2) (S (List.length (trace w2)))) = lat w 3) as ->.
      { unfold lat. rewrite H2, Tr, length_app, L1. simpl.
        repeat f_equal. lia. }
      lia.
    + discriminate.
Qed.

(** ** More on the scoped session *)

(** After a block that returns, [with_service] calls [stop_service] on the
    child once, after the block, and gives back the block's value; the
    child has then exited.  (Given a stop timeout, or a child that ends on
    its own or on SIGTERM: otherwise the shutdown waits forever.) *)
Theorem block_return_stops_once {A} (fuel : nat) (uri : string)
    (cors : option string) (ping_timeout stop_timeout : option Z)
    (block : nat -> M A) (w w1 w2 : World) (proc : nat) (a : A) :
  service_enter fuel uri cors ping_timeout stop_timeout w = (Ok proc, w1) ->
  block proc w1 = (Ok a, w2) ->
  stop_timeout <> None \/ mortal (procs w2 proc) = true ->
  let r := with_service fuel uri cors ping_timeout stop_timeout block w in
  fst r = Ok a
  /\ snd r = snd (stop_service proc stop_timeout w2)
  /\ terminations proc (snd r) = S (terminations proc w2)
  /\ exists c, exit_status (clock (snd r)) (procs (snd r) proc) = Some c.
Proof.
  intros He Hb Hm r. subst r.
  rewrite (with_service_block_returns _ _ _ _ _ _ _ _ _ _ _ He Hb).
  unfold bind.
  assert (Hone : forall w' evs,
            trace w' = trace w2 ++ EvTerminate proc :: evs ->
            filter (is_terminate proc) evs = [] ->
            terminations proc w' = S (terminations proc w2)).
  { intros w' evs Tr Hf.
    rewrite (terminations_app proc w2 w' _ Tr). simpl.
    rewrite Nat.eqb_refl, Hf. simpl. lia. }
  destruct (stop_service_cases proc stop_timeout w2)
    as [c w' Tr Ex _|limit c w' _ Tr Ex|w' Hn Hd _]; simpl.
  - repeat split; trivial; [now apply (Hone _ _ Tr) | now exists c].
  - repeat split; trivial; [now apply (Hone _ _ Tr) | now exists c].
  - destruct Hm as [Hm|Hm]; [now elim Hm | congruence].
Qed.

Lemma block_return_stops_once_witness :
  let w := Scenario.boot Scenario.linux in
  let r := with_service 5 "http://x" None (Some 2000) (Some 5000)
             (fun _ => ret 7) w in
  fst r = Ok 7 /\ terminations 0 (snd r) = 1%nat.
Proof.
  pose (w := Scenario.boot Scenario.linux).
  pose (w1 := snd (service_enter 5 "http://x" None (Some 2000) (Some 5000) w)).
  destruct (block_return_stops_once 5 "http://x" None (Some 2000) (Some 5000)
              (fun _ => ret 7) w w1 w1 0 7) as (H1 & _ & H2 & _).
  - vm_compute. reflexivity.
  - reflexivity.
  - left. discriminate.
  - split; [exact H1|]. etransitivity; [exact H2|]. vm_compute. reflexivity.
Defined.

Lemma filter_spawn_none (evs : list Event) :
  Forall (fun ev => is_spawn ev = false) evs -> filter is_spawn evs = [].
Proof.
  induction 1 as [|ev evs H _ IH]; [reflexivity|]. simpl. now rewrite H.
Qed.

(** On Linux a session launches exactly one child, as its first call, with
    the given URI and CORS setting and the idle time 0, whatever happens
    afterwards; the handle it yields is that child's, and at that point
    [terminate] has not been called on it. *)
Theorem session_launches_once (fuel : nat) (uri : string)
    (cors : option string) (ping_timeout stop_timeout : option Z) (w : World) :
  platform_system (host w) = "Linux"%string ->
  let r := service_enter fuel uri cors ping_timeout stop_timeout w in
  (exists rest,
     trace (snd r)
     = trace w ++ EvSpawn (construct "system" "service" (Some uri) (Some 0) cors)
                    (next_pid w) :: rest
     /\ Forall (fun ev => is_spawn ev = false) rest)
  /\ spawns (snd r) = S (spawns w)
  /\ (forall p, fst r = Ok p ->
        p = next_pid w /\ terminations p (snd r) = terminations p w).
Proof.
  intros Hsys r.
  set (cmd := construct "system" "service" (Some uri) (Some 0) cors).
  set (w0 := snd (run_raw cmd w)).
  assert (Es : start_service (Some uri) (Some 0) cors w = (Ok (next_pid w), w0))
    by (rewrite start_service_on_linux by exact Hsys; reflexivity).
  assert (T0 : trace w0 = trace w ++ [EvSpawn cmd (next_pid w)]) by reflexivity.
  set (handler := fun e : exn =>
         if isinstance_ServiceTimeout_or_Terminated e
         then stop_service (next_pid w) stop_timeout ;; raise e
         else @raise unit e).
  set (guarded := try_except
         (wait_for_service fuel uri (next_pid w) ping_timeout
            default_check_interval) handler).
  assert (Er : r = (guarded ;; ret (next_pid w)) w0).
  { subst r. unfold service_enter, bind at 1. now rewrite Es. }
  assert (K : keeps later (guarded ;; ret (next_pid w))).
  { apply (keeps_bind later later_trans).
    - apply (keeps_try_except later later_trans).
      + apply later_wait_for_service.
      + intros e. unfold handler.
        destruct (isinstance_ServiceTimeout_or_Terminated e).
        * apply (keeps_bind later later_trans).
          -- apply later_stop_service.
          -- intros _. apply (keeps_raise later later_refl).
        * apply (keeps_raise later later_refl).
    - intros _. apply (keeps_ret later later_refl). }
  destruct (K w0) as (_ & _ & _ & _ & rest & Tr & F).
  rewrite <- Er in Tr.
  assert (Tfull : trace (snd r) = trace w ++ EvSpawn cmd (next_pid w) :: rest).
  { rewrite Tr, T0, <- app_assoc. reflexivity. }
  split; [exists rest; now split|]. split.
  - unfold spawns. rewrite Tfull, filter_app, length_app. simpl.
    rewrite (filter_spawn_none rest F). simpl. lia.
  - intros p Hp. rewrite Er in Hp |- *. unfold bind, guarded, try_except in Hp |- *.
    pose proof (wait_for_service_quiet fuel uri (next_pid w) ping_timeout
                  default_check_interval w0) as (_ & Q).
    destruct (start_service_launches _ _ _ _ _ _ Es) as (_ & _ & Q0).
    destruct (wait_for_service fuel uri (next_pid w) ping_timeout
                default_check_interval w0) as [[[]|e| |] w1]; simpl in *.
    + injection Hp as <-. split; [reflexivity|]. now rewrite Q, Q0.
    + unfold handler, bind in Hp.
      destruct (isinstance_ServiceTimeout_or_Terminated e);
        [destruct (stop_service (next_pid w) stop_timeout w1) as [[c|e'| |] w2]|];
        discriminate.
    + discriminate.
    + discriminate.
Qed.

Lemma session_launches_once_witness :
  let w := Scenario.boot Scenario.crashing in
  spawns (snd (service_enter 5 "http://x" (Some "*"%string) (Some 2000)
                 (Some 5000) w)) = 1%nat.
Proof.
  destruct (session_launches_once 5 "http://x" (Some "*"%string) (Some 2000)
              (Some 5000) (Scenario.boot Scenario.crashing)) as (_ & H & _).
  - reflexivity.
  - exact H.
Defined.
